(** * qmplot: the command-line driver (src/qmplot/main.py)

    A shallow embedding of [parse_commandline_args] and [main], together
    with the three plotting components the driver hands its data to
    (chromosome layout, top-signal window selection, Q-Q quantile pairing).

    The driver is translated from [main.py].  pandas, argparse and matplotlib
    are external collaborators: what they return is taken as a parameter of
    the development, what the driver asks of them is recorded in a trace of
    events. *)

From Stdlib Require Import String Ascii List ZArith NArith Bool Lia DecimalString.
From Stdlib Require Import QArith Reals Lra Permutation Sorted.
From Stdlib Require Import Floats.PrimFloat.
Import ListNotations.

Local Open Scope string_scope.
Local Open Scope list_scope.

(** ** Python values met by the driver *)

(** A number held by an argparse attribute: [type=float] converts what the
    user typed, a default that is not a string is stored as written. *)
Inductive pynum : Type :=
| PyInt (z : Z)
| PyFloat (f : float).

(** A cell of a pandas table as [pd.read_table] infers it: text, an integer,
    a float or a boolean.  A missing field is the float NaN. *)
Inductive cell : Type :=
| Str (s : string)
| Int (z : Z)
| Flt (f : float)
| Bool (b : bool).

Definition NaN : cell := Flt PrimFloat.nan.

(** [pd.isna] on one cell. *)
Definition isna (c : cell) : bool :=
  match c with
  | Flt f => PrimFloat.is_nan f
  | _ => false
  end.

Inductive exn : Type :=
| KeyError (key : cell)
| AttributeError (attr : string)
| SystemExit (code : Z)
| LibraryError (what : string).

Inductive outcome (A : Type) : Type :=
| Returned (a : A)
| Raised (e : exn).
Arguments Returned {A} a.
Arguments Raised {A} e.

(** ** Strings *)

(** [x.startswith(p)] *)
Definition startswith (x p : string) : bool := String.prefix p x.

(** [x[n:]] *)
Fixpoint slice_from (n : nat) (x : string) : string :=
  match n, x with
  | O, _ => x
  | S _, EmptyString => EmptyString
  | S k, String _ t => slice_from k t
  end.

(** [str(z)] for a Python int. *)
Definition str_of_Z (z : Z) : string := NilZero.string_of_int (Z.to_int z).

(** ** Tables *)

(** A DataFrame, row by row: the column names and, for each row, its index
    label and its cells in column order. *)
Record DataFrame : Type := {
  columns : list string;
  rows : list (Z * list cell)
}.

(** A Series: index labels and values. *)
Definition Series : Type := list (Z * cell).

(** A row read from the file has one cell per header field: pandas fills a
    short line with NaN and refuses a longer one while it reads, so a parsed
    row never has more cells than the header. *)
Definition fit (width : nat) (r : list cell) : list cell :=
  firstn width (r ++ repeat NaN width).

(** The table of [pd.read_table]: the header, the body, and a RangeIndex
    [0, 1, ..] as row labels. *)
Definition frame_of (header : list string) (body : list (list cell)) : DataFrame :=
  {| columns := header;
     rows := combine (map Z.of_nat (seq 0 (length body)))
                     (map (fit (length header)) body) |}.

(** [data.dropna(how="any", axis=0)]: a row goes when any of its cells is
    null; the rows kept hold their labels. *)
Definition dropna (data : DataFrame) : DataFrame :=
  {| columns := columns data;
     rows := filter (fun r => negb (existsb isna (snd r))) (rows data) |}.

Fixpoint index_of (c : string) (cs : list string) : option nat :=
  match cs with
  | [] => None
  | c' :: rest =>
      if String.eqb c c' then Some O
      else option_map S (index_of c rest)
  end.

Fixpoint update (i : nat) (v : cell) (r : list cell) : list cell :=
  match i, r with
  | _, [] => []
  | O, _ :: t => v :: t
  | S k, x :: t => x :: update k v t
  end.

(** ** Events and the driver's monad *)

(** The keyword arguments of [manhattanplot] that depend on the command
    line; the others are the constants written in [main]. *)
Record manhattan_kwargs : Type := {
  mk_chrom : string;
  mk_pos : string;
  mk_pv : string;
  mk_sign_marker_p : float;
  mk_snp : option string;
  mk_title : option string;
  mk_is_annotate_topsnp : bool;
  mk_ld_block_size : Z
}.

Inductive event : Type :=
| UseBackend (name : string)
| Print (msg : string)
| RcParamsUpdate
| Subplots (width height : Z)
| Manhattan (data : DataFrame) (kw : manhattan_kwargs)
| QQ (data : Series) (qq_title : option string)
| SaveFig (fname : string) (fig_dpi : pynum)
| Show.

(** A run: what was done so far, and how it ended. *)
Definition run (A : Type) : Type := list event * outcome A.

Definition ret {A} (a : A) : run A := ([], Returned a).
Definition raise {A} (e : exn) : run A := ([], Raised e).
Definition emit (e : event) : run unit := ([e], Returned tt).

Definition bind {A B} (m : run A) (k : A -> run B) : run B :=
  match m with
  | (t, Returned a) => let (t', r) := k a in (t ++ t', r)
  | (t, Raised e) => (t, Raised e)
  end.

Definition lift {A} (o : outcome A) : run A := ([], o).

(** A library call that returns nothing: [None] when it returns. *)
Definition check (o : option exn) : run unit :=
  match o with
  | None => ret tt
  | Some e => raise e
  end.

Declare Scope run_scope.
Delimit Scope run_scope with run.
Notation "x <- m ;; k" := (bind m (fun x => k))
  (at level 61, m at next level, right associativity) : run_scope.
Notation "m ;;; k" := (bind m (fun _ => k))
  (at level 61, right associativity) : run_scope.
Local Open Scope run_scope.

Definition when (b : bool) (m : run unit) : run unit :=
  if b then m else ret tt.

Fixpoint mapM {A B} (f : A -> run B) (l : list A) : run (list B) :=
  match l with
  | [] => ret []
  | x :: t => y <- f x ;; ys <- mapM f t ;; ret (y :: ys)
  end.

(** ** Column access *)

(** [data[c]] *)
Definition getitem (data : DataFrame) (c : string) : run Series :=
  match index_of c (columns data) with
  | None => raise (KeyError (Str c))
  | Some i => ret (map (fun r => (fst r, nth i (snd r) NaN)) (rows data))
  end.

(** [series[k]] for an integer label [k]. *)
Definition loc (s : Series) (k : Z) : run cell :=
  match find (fun p => Z.eqb (fst p) k) s with
  | Some p => ret (snd p)
  | None => raise (KeyError (Int k))
  end.

(** [data[c] = data[c].map(f)], where [f] may raise. *)
Definition setitem_map (f : cell -> run cell) (data : DataFrame) (c : string)
  : run DataFrame :=
  match index_of c (columns data) with
  | None => raise (KeyError (Str c))
  | Some i =>
      rs <- mapM (fun r => v <- f (nth i (snd r) NaN) ;;
                           ret (fst r, update i v (snd r))) (rows data) ;;
      ret {| columns := columns data; rows := rs |}
  end.

(** [x.startswith("chr")] on a cell: only text has the method. *)
Definition cell_startswith (x : cell) (p : string) : run bool :=
  match x with
  | Str s => ret (startswith s p)
  | _ => raise (AttributeError "startswith")
  end.

(** [lambda x: x[3:] if x.startswith("chr") else x] *)
Definition strip_chr (x : cell) : run cell :=
  b <- cell_startswith x "chr" ;;
  if b then
    match x with
    | Str s => ret (Str (slice_from 3 s))
    | _ => ret x
    end
  else ret x.

(** ** The command line *)

Record Namespace : Type := {
  input : string;
  outprefix : string;
  outfiletype : string;
  chrom : string;
  pos : string;
  pv : string;
  title : option string;
  sign_pvalue : float;
  m_id : option string;
  ld_block_size : Z;
  dpi : pynum;
  display : bool
}.

(** The attributes of the parsed namespace, one per [add_argument]. *)
Inductive dest : Type :=
| Dinput | Doutprefix | Doutfiletype | Dchrom | Dpos | Dpv | Dtitle
| Dsign_pvalue | Dm_id | Dld_block_size | Ddpi | Ddisplay.

Definition dest_eqb (a b : dest) : bool :=
  match a, b with
  | Dinput, Dinput | Doutprefix, Doutprefix | Doutfiletype, Doutfiletype
  | Dchrom, Dchrom | Dpos, Dpos | Dpv, Dpv | Dtitle, Dtitle
  | Dsign_pvalue, Dsign_pvalue | Dm_id, Dm_id
  | Dld_block_size, Dld_block_size | Ddpi, Ddpi | Ddisplay, Ddisplay => true
  | _, _ => false
  end.

Inductive argtype : Type := TStr | TFloat | TInt.

Inductive action : Type :=
| Store (type : argtype)
| StoreTrue.

Record argument : Type := {
  option_strings : list string;
  arg_dest : dest;
  arg_action : action
}.

(** The twelve [add_argument] calls, in source order. *)
Definition arguments : list argument := [
  {| option_strings := ["-I"; "--input"]; arg_dest := Dinput; arg_action := Store TStr |};
  {| option_strings := ["-O"; "--outprefix"]; arg_dest := Doutprefix; arg_action := Store TStr |};
  {| option_strings := ["--outfiletype"]; arg_dest := Doutfiletype; arg_action := Store TStr |};
  {| option_strings := ["--chrom"]; arg_dest := Dchrom; arg_action := Store TStr |};
  {| option_strings := ["--pos"]; arg_dest := Dpos; arg_action := Store TStr |};
  {| option_strings := ["--pvalue"]; arg_dest := Dpv; arg_action := Store TStr |};
  {| option_strings := ["-T"; "--title"]; arg_dest := Dtitle; arg_action := Store TStr |};
  {| option_strings := ["-P"; "--sign-mark-pvalue"]; arg_dest := Dsign_pvalue;
     arg_action := Store TFloat |};
  {| option_strings := ["-M"; "--top-sign-signal-mark-id"]; arg_dest := Dm_id;
     arg_action := Store TStr |};
  {| option_strings := ["--ld-block-size"]; arg_dest := Dld_block_size;
     arg_action := Store TInt |};
  {| option_strings := ["--dpi"]; arg_dest := Ddpi; arg_action := Store TFloat |};
  {| option_strings := ["--display"]; arg_dest := Ddisplay; arg_action := StoreTrue |}
].

(** A value argparse has converted and stored. *)
Inductive stored : Type :=
| SStr (s : string)
| SFloat (f : float)
| SInt (z : Z)
| STrue.

Definition find_argument (tok : string) : option argument :=
  find (fun a => existsb (String.eqb tok) (option_strings a)) arguments.

Definition is_help (tok : string) : bool :=
  String.eqb tok "-h" || String.eqb tok "--help".

(** The last value stored for an attribute; the list is newest first. *)
Fixpoint lookup (d : dest) (s : list (dest * stored)) : option stored :=
  match s with
  | [] => None
  | (d', v) :: rest => if dest_eqb d d' then Some v else lookup d rest
  end.

Definition str_attr (d : dest) (s : list (dest * stored)) (default : string) : string :=
  match lookup d s with
  | Some (SStr v) => v
  | _ => default
  end.

Definition opt_attr (d : dest) (s : list (dest * stored)) : option string :=
  match lookup d s with
  | Some (SStr v) => Some v
  | _ => None
  end.

(** The footer every run prints. *)
Definition done_message : string :=
  ">>>>>>>>>>>>>>>>> Create Manhattan and Q-Q plots done <<<<<<<<<<<<<<<<<".

Definition chr_warning : string :=
  ("[WARNING] Find 'chr' is the start characters of chromosomal name, this program will "
  ++ "enhance cut the first 3 characters when generate manhattan plot. If you want to keep the "
  ++ "original name please write new Python codes by using qmplot as a Python package and "
  ++ "import manhattanplot() function from qmplot then generate the plot by yourself. You "
  ++ "can find more detail of tutorials in github: <https://github.com/ShujiaHuang/qmplot>.")%string.

#[warnings="-inexact-float"]
Definition default_sign_pvalue : float := 5e-8%float.

Section Driver.

(** Python's [float(s)] and [int(s)], as argparse calls them. *)
Variable py_float : string -> option float.
Variable py_int : string -> option Z.
(** [str(f)] for a float. *)
Variable float_str : float -> string.
(** [pd.read_table(path, sep="\t")]: the header and the body it parsed. *)
Variable read_table : string -> outcome (list string * list (list cell)).
(** The plotting calls: [None] when the call returns. *)
Variable manhattanplot : DataFrame -> manhattan_kwargs -> option exn.
Variable qqplot : Series -> option string -> option exn.
Variable savefig : string -> pynum -> option exn.

(** argparse's conversion of one option value; a value that does not
    convert ends the program with status 2. *)
Definition convert (t : argtype) (v : string) : outcome stored :=
  match t with
  | TStr => Returned (SStr v)
  | TFloat =>
      match py_float v with
      | Some f => Returned (SFloat f)
      | None => Raised (SystemExit 2)
      end
  | TInt =>
      match py_int v with
      | Some z => Returned (SInt z)
      | None => Raised (SystemExit 2)
      end
  end.

(** argparse's scan of the command line, for options spelled out in full
    with their value as the next word.  Help ends the program with status
    0; an unknown word, a missing value or a value that starts with a
    dash ends it with status 2.  (argparse also accepts abbreviated long
    options, [--opt=value], values glued to a short option and negative
    numbers as values; these spellings are not modelled and are rejected
    here.) *)
Fixpoint scan (argv : list string) (s : list (dest * stored))
  : outcome (list (dest * stored)) :=
  match argv with
  | [] => Returned s
  | tok :: rest =>
      if is_help tok then Raised (SystemExit 0)
      else
        match find_argument tok with
        | None => Raised (SystemExit 2)
        | Some a =>
            match arg_action a with
            | StoreTrue => scan rest ((arg_dest a, STrue) :: s)
            | Store t =>
                match rest with
                | [] => Raised (SystemExit 2)
                | v :: rest' =>
                    if startswith v "-" then Raised (SystemExit 2)
                    else
                      match convert t v with
                      | Returned x => scan rest' ((arg_dest a, x) :: s)
                      | Raised e => Raised e
                      end
                end
            end
        end
  end.

(** [parse_commandline_args], on the words after the program name. *)
Definition parse_commandline_args (argv : list string) : outcome Namespace :=
  match scan argv [] with
  | Raised e => Raised e
  | Returned s =>
      match lookup Dinput s, lookup Doutprefix s with
      | Some (SStr i), Some (SStr o) =>
          Returned
            {| input := i;
               outprefix := o;
               outfiletype := str_attr Doutfiletype s "png";
               chrom := str_attr Dchrom s "#CHROM";
               pos := str_attr Dpos s "POS";
               pv := str_attr Dpv s "P";
               title := opt_attr Dtitle s;
               sign_pvalue :=
                 match lookup Dsign_pvalue s with
                 | Some (SFloat f) => f
                 | _ => default_sign_pvalue
                 end;
               m_id := opt_attr Dm_id s;
               ld_block_size :=
                 match lookup Dld_block_size s with
                 | Some (SInt z) => z
                 | _ => 500000%Z
                 end;
               dpi :=
                 match lookup Ddpi s with
                 | Some (SFloat f) => PyFloat f
                 | _ => PyInt 300
                 end;
               display :=
                 match lookup Ddisplay s with
                 | Some STrue => true
                 | _ => false
                 end |}
      | _, _ => Raised (SystemExit 2)
      end
  end.

(** [str(x)] on a cell, as [astype(str)] applies it. *)
Definition cell_str (x : cell) : string :=
  match x with
  | Str s => s
  | Int z => str_of_Z z
  | Flt f => float_str f
  | Bool true => "True"
  | Bool false => "False"
  end.

(** Lines 61-72 of [main]: load, drop the rows with a null, turn the
    chromosome column into text, warn, strip the prefix. *)
Definition load_data (kwargs : Namespace) : run DataFrame :=
  table <- lift (read_table (input kwargs)) ;;
  let data := frame_of (fst table) (snd table) in
  let data := dropna data in
  data <- setitem_map (fun x => ret (Str (cell_str x))) data (chrom kwargs) ;;
  col <- getitem data (chrom kwargs) ;;
  first <- loc col 0 ;;
  b <- cell_startswith first "chr" ;;
  when b (emit (Print chr_warning)) ;;;
  setitem_map strip_chr data (chrom kwargs).

(** Lines 74-127 of [main]: the two plots. *)
Definition plot (kwargs : Namespace) (data : DataFrame) : run unit :=
  emit RcParamsUpdate ;;;
  emit (Subplots 12 4) ;;;
  let kw := {| mk_chrom := chrom kwargs;
               mk_pos := pos kwargs;
               mk_pv := pv kwargs;
               mk_sign_marker_p := sign_pvalue kwargs;
               mk_snp := m_id kwargs;
               mk_title := title kwargs;
               mk_is_annotate_topsnp :=
                 match m_id kwargs with Some _ => true | None => false end;
               mk_ld_block_size := ld_block_size kwargs |} in
  emit (Manhattan data kw) ;;;
  check (manhattanplot data kw) ;;;
  let manhattan_file :=
    (outprefix kwargs ++ ".manhattan." ++ outfiletype kwargs)%string in
  check (savefig manhattan_file (dpi kwargs)) ;;;
  emit (SaveFig manhattan_file (dpi kwargs)) ;;;
  when (display kwargs) (emit Show) ;;;
  emit (Subplots 6 6) ;;;
  pvalues <- getitem data (pv kwargs) ;;
  emit (QQ pvalues (title kwargs)) ;;;
  check (qqplot pvalues (title kwargs)) ;;;
  let qq_file := (outprefix kwargs ++ ".QQ." ++ outfiletype kwargs)%string in
  check (savefig qq_file (dpi kwargs)) ;;;
  emit (SaveFig qq_file (dpi kwargs)) ;;;
  when (display kwargs) (emit Show) ;;;
  emit (Print done_message).

(** [main], after the command line is parsed. *)
Definition main_with (kwargs : Namespace) : run unit :=
  when (negb (display kwargs)) (emit (UseBackend "agg")) ;;;
  data <- load_data kwargs ;;
  plot kwargs data.

(** [main] *)
Definition main (argv : list string) : run unit :=
  kwargs <- lift (parse_commandline_args argv) ;;
  main_with kwargs.

(** *** Views used to state what the driver does *)

(** The chromosome label of a row after [astype(str)], for the chromosome
    column at position [i]. *)
Definition chrom_label (i : nat) (r : Z * list cell) : string :=
  cell_str (nth i (snd r) NaN).

(** The label with a leading "chr" cut off. *)
Definition strip_label (s : string) : string :=
  if startswith s "chr" then slice_from 3 s else s.

(** A row with its chromosome cell replaced by the stripped label. *)
Definition relabel (i : nat) (r : Z * list cell) : Z * list cell :=
  (fst r, update i (Str (strip_label (chrom_label i r))) (snd r)).

(** A row after [astype(str)] of the chromosome column. *)
Definition as_text (i : nat) (r : Z * list cell) : Z * list cell :=
  (fst r, update i (Str (chrom_label i r)) (snd r)).

End Driver.

(** The names of the two image files. *)
Definition manhattan_file (kwargs : Namespace) : string :=
  (outprefix kwargs ++ ".manhattan." ++ outfiletype kwargs)%string.

Definition qq_file (kwargs : Namespace) : string :=
  (outprefix kwargs ++ ".QQ." ++ outfiletype kwargs)%string.

(** What the choice of backend leaves in the trace. *)
Definition backend (kwargs : Namespace) : list event :=
  if display kwargs then [] else [UseBackend "agg"].

(** The row carrying index label [k]. *)
Definition has_label (k : Z) (r : Z * list cell) : bool := Z.eqb (fst r) k.

(** The files a trace has written, in order. *)
Definition saved_files (t : list event) : list string :=
  flat_map (fun e => match e with SaveFig f _ => [f] | _ => [] end) t.

(** The messages a trace has printed, in order. *)
Definition printed (t : list event) : list string :=
  flat_map (fun e => match e with Print m => [m] | _ => [] end) t.

(** A flag is omitted when none of its option strings is on the command
    line. *)
Definition omitted (flags : list string) (argv : list string) : Prop :=
  forall f, In f flags -> ~ In f argv.

(** ** Sample inputs *)

Module Sample.

Definition no_float (s : string) : option float := None.
Definition no_int (s : string) : option Z := None.
Definition float_str (f : float) : string := "0.5".
Definition table (h : list string) (b : list (list cell)) (path : string)
  : outcome (list string * list (list cell)) := Returned (h, b).
Definition plots {A B} (a : A) (b : B) : option exn := None.

Definition header : list string := ["#CHROM"; "POS"; "P"; "BETA"].

Definition kwargs : Namespace :=
  {| input := "gwas.tsv"; outprefix := "out"; outfiletype := "png";
     chrom := "#CHROM"; pos := "POS"; pv := "P"; title := None;
     sign_pvalue := default_sign_pvalue; m_id := None;
     ld_block_size := 500000; dpi := PyInt 300; display := false |}.

(** A table whose only row has a null outside the required columns. *)
Definition null_elsewhere : list (list cell) :=
  [[Int 1; Int 100; Flt 0.5%float; NaN]].

(** A table whose first row carries the "chr" prefix. *)
Definition chr_first : list (list cell) :=
  [[Str "chr1"; Int 100; Flt 0.5%float; Flt 1%float];
   [Str "chr2"; Int 5; Flt 0.25%float; Flt 1%float]].

(** A table in which only a later row carries the "chr" prefix. *)
Definition chr_later : list (list cell) :=
  [[Str "1"; Int 100; Flt 0.5%float; Flt 1%float];
   [Str "chr2"; Int 5; Flt 0.25%float; Flt 1%float]].

Definition main_with_table (b : list (list cell)) : run unit :=
  main_with float_str (table header b) plots plots plots kwargs.

(** The table of [chr_first] as the layout receives it. *)
Definition chr_first_stripped : DataFrame :=
  {| columns := header;
     rows := [(0%Z, [Str "1"; Int 100; Flt 0.5%float; Flt 1%float]);
              (1%Z, [Str "2"; Int 5; Flt 0.25%float; Flt 1%float])] |}.

Definition layout_kwargs : manhattan_kwargs :=
  {| mk_chrom := "#CHROM"; mk_pos := "POS"; mk_pv := "P";
     mk_sign_marker_p := default_sign_pvalue; mk_snp := None; mk_title := None;
     mk_is_annotate_topsnp := false; mk_ld_block_size := 500000 |}.

(** The shortest command line that parses. *)
Definition argv : list string := ["-I"; "gwas.tsv"; "-O"; "out"].

End Sample.

(** * The plotting components

    [manhattanplot] and [qqplot] are imported by [main.py] from the package;
    their contracts are taken from sections 3, 4 and 8 of the specification
    of the package. *)

(** Modelled from the spec: the MarkerRecord of section 3, a chromosome
    label, a position that is an integer not below zero, a p-value, and the
    value of the annotation column when the row has one. *)
Record MarkerRecord : Type := {
  chromosome : string;
  position : N;
  p_value : Q;
  annotation : option string
}.

(** ** Q-Q quantile pairing *)

(** [-log10(x)] *)
Definition neg_log10 (x : R) : R := (- Rlog 10 x)%R.

(** Modelled from the spec: "sort ascending" (section 4.3), as a stable
    insertion sort on the p-values. *)
Fixpoint insert_sorted (p : Q) (l : list Q) : list Q :=
  match l with
  | [] => [p]
  | q :: rest => if Qle_bool p q then p :: l else q :: insert_sorted p rest
  end.

Definition sort_ascending (ps : list Q) : list Q :=
  fold_right insert_sorted [] ps.

(** Modelled from the spec: "expected = -log10((rank)/(n+1)) using 1-based
    rank over n total values". *)
Definition expected (n rank : nat) : R :=
  neg_log10 (INR rank / INR (n + 1)).

(** Modelled from the spec: "observed = -log10(p)". *)
Definition observed (p : Q) : R := neg_log10 (Q2R p).

(** Modelled from the spec: the Q-Q quantile pairing of section 4.3, which
    is the computation [qqplot] draws: the p-values sorted ascending, each
    paired with the expected value of its rank, in rank order. *)
Definition qq_pairing (ps : list Q) : list (R * R) :=
  let n := length ps in
  map (fun kp => (expected n (fst kp), observed (snd kp)))
      (combine (seq 1 n) (sort_ascending ps)).

(** ** Top-signal window selection *)

(** Modelled from the spec: the GenomicWindow of section 3, a half-open
    interval of fixed size within one chromosome; the window of a record is
    named by its chromosome and the number of whole windows below its
    position. *)
Definition window_of (w : N) (r : MarkerRecord) : string * N :=
  (chromosome r, (position r / w)%N).

Definition window_eqb (a b : string * N) : bool :=
  String.eqb (fst a) (fst b) && N.eqb (snd a) (snd b).

(** [a] is strictly more significant than [b]. *)
Definition more_significant (a b : MarkerRecord) : bool :=
  negb (Qle_bool (p_value b) (p_value a)).

(** One record meets the minima found so far: it replaces the minimum of
    its window only when its p-value is strictly smaller, so that of two
    equal minima the first met stays. *)
Fixpoint meet (w : N) (r : MarkerRecord) (best : list MarkerRecord)
  : list MarkerRecord :=
  match best with
  | [] => [r]
  | b :: rest =>
      if window_eqb (window_of w r) (window_of w b) then
        (if more_significant r b then r else b) :: rest
      else b :: meet w r rest
  end.

(** Modelled from the spec: "within each window retain only the record with
    the minimum p-value", ties going to "the first encountered in input
    order" (section 4.2). *)
Definition window_minima (w : N) (records : list MarkerRecord) : list MarkerRecord :=
  fold_left (fun best r => meet w r best) records [].

Definition annotated (r : MarkerRecord) : bool :=
  match annotation r with
  | Some _ => true
  | None => false
  end.

(** Modelled from the spec: the top-signal window selection of section 4.2,
    the part of [manhattanplot] that picks the records to annotate: "among
    retained per-window minima, keep only those whose annotation-id is
    non-null". *)
Definition top_signal_selection (w : N) (records : list MarkerRecord)
  : list MarkerRecord :=
  filter annotated (window_minima w records).

(** ** Chromosome layout *)

Definition on_chromosome (c : string) (r : MarkerRecord) : bool :=
  String.eqb (chromosome r) c.

(** Modelled from the spec: the width of a chromosome group, "computed from
    the ... max position" of its records (section 3); "a chromosome label
    with zero records contributes zero width". *)
Definition width (records : list MarkerRecord) (c : string) : N :=
  fold_right N.max 0%N (map position (filter (on_chromosome c) records)).

(** Modelled from the spec: the x-axis offset of each chromosome of the
    display order, "the cumulative width of all preceding chromosomes". *)
Fixpoint offsets (records : list MarkerRecord) (order : list string) (start : N)
  : list (string * N) :=
  match order with
  | [] => []
  | c :: rest => (c, start) :: offsets records rest (start + width records c)%N
  end.

Fixpoint offset_in (c : string) (table : list (string * N)) : option N :=
  match table with
  | [] => None
  | (c', o) :: rest => if String.eqb c c' then Some o else offset_in c rest
  end.

Definition offset_of (records : list MarkerRecord) (order : list string) (c : string)
  : option N :=
  offset_in c (offsets records order 0%N).

(** What to do with a record whose label is not in the display order. *)
Inductive unknown_label : Type := DropRecord | RaiseValidationError.

(** Modelled from the spec: the chromosome layout of section 4.1, the part
    of [manhattanplot] that places the records along the x axis: each record
    with "its position plus the cumulative width of all preceding
    chromosomes in display order"; [None] is the ValidationError.  (The
    colour assigned to each chromosome is not part of this model.) *)
Fixpoint place (policy : unknown_label) (table : list (string * N))
         (records : list MarkerRecord) : option (list (MarkerRecord * N)) :=
  match records with
  | [] => Some []
  | r :: rest =>
      match offset_in (chromosome r) table, place policy table rest with
      | _, None => None
      | Some o, Some placed => Some ((r, (position r + o)%N) :: placed)
      | None, Some placed =>
          match policy with
          | DropRecord => Some placed
          | RaiseValidationError => None
          end
      end
  end.

Definition chromosome_layout (policy : unknown_label) (order : list string)
           (records : list MarkerRecord) : option (list (MarkerRecord * N)) :=
  place policy (offsets records order 0%N) records.

(** The example of section 8. *)
Definition example_records : list MarkerRecord :=
  [ {| chromosome := "chr1"; position := 100; p_value := 1 # 100; annotation := Some "rs1" |};
    {| chromosome := "chr1"; position := 100200; p_value := 1 # 1000000000;
       annotation := Some "rs2" |};
    {| chromosome := "chr2"; position := 50; p_value := 1 # 2; annotation := Some "rs3" |} ].


(** The sum of the widths of the chromosomes in [cs]. *)
Definition total_width (records : list MarkerRecord) (cs : list string) : N :=
  fold_right N.add 0%N (map (width records) cs).

(** What the minima found so far are to the records seen so far. *)
Record minima_of (w : N) (seen best : list MarkerRecord) : Prop := {
  one_per_window : NoDup (map (window_of w) best);
  every_window :
    forall r, In r seen ->
      exists m, In m best /\ window_of w m = window_of w r
                /\ (p_value m <= p_value r)%Q;
  first_minimum :
    forall m, In m best ->
      exists before after,
        seen = before ++ m :: after
        /\ forall x, In x before -> window_of w x = window_of w m ->
                     (p_value m < p_value x)%Q
}.


(** ** Further views of the driver *)

(** The number of [plt.show()] calls in a trace. *)
Definition shown (t : list event) : nat :=
  length (filter (fun e => match e with Show => true | _ => false end) t).

(** The keyword arguments [main] builds for [manhattanplot]. *)
Definition layout_kwargs_of (kwargs : Namespace) : manhattan_kwargs :=
  {| mk_chrom := chrom kwargs;
     mk_pos := pos kwargs;
     mk_pv := pv kwargs;
     mk_sign_marker_p := sign_pvalue kwargs;
     mk_snp := m_id kwargs;
     mk_title := title kwargs;
     mk_is_annotate_topsnp :=
       match m_id kwargs with Some _ => true | None => false end;
     mk_ld_block_size := ld_block_size kwargs |}.

(** The value argparse stores for an attribute has the type of its
    option. *)
Definition shape (d : dest) (x : stored) : Prop :=
  match d with
  | Ddisplay => x = STrue
  | Dsign_pvalue | Ddpi => exists f, x = SFloat f
  | Dld_block_size => exists z, x = SInt z
  | _ => exists v, x = SStr v
  end.

(** An attribute of the namespace, as the value argparse holds for it;
    [None] is Python's [None], and [False] for the display switch. *)
Definition attr (d : dest) (ns : Namespace) : option stored :=
  match d with
  | Dinput => Some (SStr (input ns))
  | Doutprefix => Some (SStr (outprefix ns))
  | Doutfiletype => Some (SStr (outfiletype ns))
  | Dchrom => Some (SStr (chrom ns))
  | Dpos => Some (SStr (pos ns))
  | Dpv => Some (SStr (pv ns))
  | Dtitle => option_map SStr (title ns)
  | Dsign_pvalue => Some (SFloat (sign_pvalue ns))
  | Dm_id => option_map SStr (m_id ns)
  | Dld_block_size => Some (SInt (ld_block_size ns))
  | Ddpi => Some (match dpi ns with PyInt z => SInt z | PyFloat f => SFloat f end)
  | Ddisplay => if display ns then Some STrue else None
  end.

(** The [default=] of each [add_argument]; the two required options have
    none. *)
Definition default_of (d : dest) : option stored :=
  match d with
  | Dinput | Doutprefix => None
  | Doutfiletype => Some (SStr "png")
  | Dchrom => Some (SStr "#CHROM")
  | Dpos => Some (SStr "POS")
  | Dpv => Some (SStr "P")
  | Dtitle => None
  | Dsign_pvalue => Some (SFloat default_sign_pvalue)
  | Dm_id => None
  | Dld_block_size => Some (SInt 500000)
  | Ddpi => Some (SInt 300)
  | Ddisplay => None
  end.

(** ** More sample inputs *)

Module Cases.

(** A table whose first row has a null and whose second row has none. *)
Definition null_first : list (list cell) :=
  [[Int 1; Int 100; Flt 0.5%float; NaN];
   [Int 2; Int 5; Flt 0.25%float; Flt 1%float]].

(** The sample options, asking for a chromosome column the table lacks. *)
Definition no_chrom : Namespace :=
  {| input := "gwas.tsv"; outprefix := "out"; outfiletype := "png";
     chrom := "CHR"; pos := "POS"; pv := "P"; title := None;
     sign_pvalue := default_sign_pvalue; m_id := None;
     ld_block_size := 500000; dpi := PyInt 300; display := false |}.

(** The sample options, asking for a p-value column the table lacks. *)
Definition no_pvalue : Namespace :=
  {| input := "gwas.tsv"; outprefix := "out"; outfiletype := "png";
     chrom := "#CHROM"; pos := "POS"; pv := "PVAL"; title := None;
     sign_pvalue := default_sign_pvalue; m_id := None;
     ld_block_size := 500000; dpi := PyInt 300; display := false |}.

Definition main_with_kwargs (kwargs : Namespace) (b : list (list cell)) : run unit :=
  main_with Sample.float_str (Sample.table Sample.header b)
            Sample.plots Sample.plots Sample.plots kwargs.

Definition main_argv (argv : list string) (b : list (list cell)) : run unit :=
  main Sample.no_float Sample.no_int Sample.float_str
       (Sample.table Sample.header b)
       Sample.plots Sample.plots Sample.plots argv.

(** The p-values of [Sample.chr_first] as the Q-Q plot receives them. *)
Definition pvalues : Series := [(0%Z, Flt 0.5%float); (1%Z, Flt 0.25%float)].

(** The option [--chrom]. *)
Definition chrom_option : argument :=
  {| option_strings := ["--chrom"]; arg_dest := Dchrom; arg_action := Store TStr |}.

(** The option [--dpi]. *)
Definition dpi_option : argument :=
  {| option_strings := ["--dpi"]; arg_dest := Ddpi; arg_action := Store TFloat |}.

End Cases.

(** One step of a run: decide the next library call or test. *)
Ltac run_step :=
  simpl;
  match goal with
  | |- context [check ?o] => destruct o as [?|]
  | |- context [when ?b _] => destruct b
  | |- context [match index_of ?c ?l with _ => _ end] => destruct (index_of c l)
  end.


(** * Facts about the driver *)

(** ** The monad *)

Lemma bind_ret {A B} (a : A) (k : A -> run B) : bind (ret a) k = k a.
Proof. unfold bind, ret. destruct (k a); reflexivity. Qed.

Lemma bind_raise {A B} (e : exn) (k : A -> run B) : bind (raise e) k = raise e.
Proof. reflexivity. Qed.

Lemma bind_returned {A B} (t : list event) (a : A) (k : A -> run B) :
  bind (t, Returned a) k = (t ++ fst (k a), snd (k a)).
Proof. unfold bind. destruct (k a); reflexivity. Qed.

Lemma bind_raised {A B} (t : list event) (e : exn) (k : A -> run B) :
  bind (t, Raised e) k = (t, Raised e).
Proof. reflexivity. Qed.

Lemma mapM_ret {A B} (f : A -> run B) (g : A -> B) (l : list A) :
  (forall x, In x l -> f x = ret (g x)) -> mapM f l = ret (map g l).
Proof.
  induction l as [|x t IH]; intros H; simpl.
  - reflexivity.
  - rewrite (H x (or_introl eq_refl)), bind_ret.
    rewrite IH by (intros y Hy; apply H; right; exact Hy).
    rewrite bind_ret. reflexivity.
Qed.

(** ** Rows and columns *)

Lemma index_of_lt (c : string) (cs : list string) (i : nat) :
  index_of c cs = Some i -> (i < length cs)%nat.
Proof.
  revert i. induction cs as [|c' rest IH]; simpl; intros i H.
  - discriminate.
  - destruct (String.eqb c c').
    + injection H as <-. lia.
    + destruct (index_of c rest) as [j|]; simpl in H; [|discriminate].
      injection H as <-. specialize (IH j eq_refl). lia.
Qed.

Lemma nth_update (i : nat) (v : cell) (r : list cell) :
  (i < length r)%nat -> nth i (update i v r) NaN = v.
Proof.
  revert i. induction r as [|x t IH]; intros [|i] H; simpl in *; try lia.
  - reflexivity.
  - apply IH. lia.
Qed.

Lemma update_update (i : nat) (v w : cell) (r : list cell) :
  update i w (update i v r) = update i w r.
Proof.
  revert i. induction r as [|x t IH]; intros [|i]; simpl; try reflexivity.
  rewrite IH. reflexivity.
Qed.

Lemma nth_update_other (i j : nat) (v : cell) (r : list cell) :
  j <> i -> nth j (update i v r) NaN = nth j r NaN.
Proof.
  revert i j. induction r as [|x t IH]; intros [|i] [|j] H; simpl;
    try reflexivity; try congruence.
  apply IH. congruence.
Qed.

Lemma fit_length (w : nat) (r : list cell) : length (fit w r) = w.
Proof.
  unfold fit. rewrite length_firstn, length_app, repeat_length. lia.
Qed.

Lemma frame_of_width (h : list string) (b : list (list cell)) (r : Z * list cell) :
  In r (rows (frame_of h b)) -> length (snd r) = length h.
Proof.
  unfold frame_of; simpl. intros H. destruct r as [l cs].
  apply in_combine_r in H. apply in_map_iff in H as [x [<- _]].
  apply fit_length.
Qed.

Lemma dropna_width (h : list string) (b : list (list cell)) (r : Z * list cell) :
  In r (rows (dropna (frame_of h b))) -> length (snd r) = length h.
Proof.
  unfold dropna; simpl. intros H. apply filter_In in H as [H _].
  apply (frame_of_width h b). exact H.
Qed.

Lemma find_map_label (g : Z * list cell -> cell) (l : list (Z * list cell)) (k : Z) :
  find (fun p : Z * cell => Z.eqb (fst p) k) (map (fun r => (fst r, g r)) l)
  = option_map (fun r => (fst r, g r)) (find (has_label k) l).
Proof.
  induction l as [|r t IH]; simpl.
  - reflexivity.
  - unfold has_label at 1. destruct (Z.eqb (fst r) k); [reflexivity | exact IH].
Qed.

Section DriverFacts.

Variable py_float : string -> option float.
Variable py_int : string -> option Z.
Variable float_str : float -> string.
Variable read_table : string -> outcome (list string * list (list cell)).
Variable manhattanplot : DataFrame -> manhattan_kwargs -> option exn.
Variable qqplot : Series -> option string -> option exn.
Variable savefig : string -> pynum -> option exn.

(** The driver run against the collaborators of this section. *)
Local Abbreviation load := (load_data float_str read_table).
Local Abbreviation plot_all := (plot manhattanplot qqplot savefig).
Local Abbreviation run_main :=
  (main_with float_str read_table manhattanplot qqplot savefig).
Local Abbreviation label := (chrom_label float_str).
Local Abbreviation stripped := (relabel float_str).

Lemma strip_chr_text (s : string) : strip_chr (Str s) = ret (Str (strip_label s)).
Proof.
  unfold strip_chr, strip_label, cell_startswith. rewrite bind_ret.
  destruct (startswith s "chr"); reflexivity.
Qed.

(** What [load_data] does, case by case. *)
Lemma load_data_eq (kwargs : Namespace) :
  load kwargs =
  match read_table (input kwargs) with
  | Raised e => ([], Raised e)
  | Returned (h, b) =>
      match index_of (chrom kwargs) h with
      | None => ([], Raised (KeyError (Str (chrom kwargs))))
      | Some i =>
          match find (has_label 0) (rows (dropna (frame_of h b))) with
          | None => ([], Raised (KeyError (Int 0)))
          | Some r0 =>
              (if startswith (label i r0) "chr"
               then [Print chr_warning] else [],
               Returned {| columns := h;
                           rows := map (stripped i) (rows (dropna (frame_of h b))) |})
          end
      end
  end.
Proof.
  unfold load_data.
  destruct (read_table (input kwargs)) as [[h b]|e]; [|reflexivity].
  change (lift (Returned (h, b))) with (ret (h, b)). rewrite bind_ret.
  simpl fst; simpl snd.
  set (rs := rows (dropna (frame_of h b))).
  assert (Hw : forall r, In r rs -> length (snd r) = length h)
    by (intros r Hr; apply (dropna_width h b r Hr)).
  unfold setitem_map at 1. simpl columns.
  destruct (index_of (chrom kwargs) h) as [i|] eqn:Hi; [|reflexivity].
  pose proof (index_of_lt _ _ _ Hi) as Hlt.
  fold rs.
  rewrite (mapM_ret _ (as_text float_str i)).
  2:{ intros r _. rewrite bind_ret. reflexivity. }
  rewrite !bind_ret.
  unfold getitem. simpl columns. rewrite Hi. rewrite bind_ret. simpl rows.
  rewrite map_map. unfold loc.
  rewrite (find_map_label (fun r => nth i (snd (as_text float_str i r)) NaN)).
  destruct (find (has_label 0) rs) as [r0|] eqn:Hf; simpl option_map; cbv iota.
  2:{ reflexivity. }
  pose proof (find_some _ _ Hf) as [Hin _].
  rewrite bind_ret. simpl snd at 1.
  rewrite nth_update by (rewrite (Hw r0 Hin); exact Hlt).
  unfold cell_startswith. rewrite bind_ret.
  assert (Hmap : setitem_map strip_chr
                   {| columns := h; rows := map (as_text float_str i) rs |} (chrom kwargs)
                 = ret {| columns := h; rows := map (stripped i) rs |}).
  { unfold setitem_map. simpl columns. rewrite Hi. simpl rows.
    rewrite (mapM_ret _ (fun r => (fst r, update i (Str (strip_label
               (match nth i (snd r) NaN with Str s => s | _ => EmptyString end)))
               (snd r)))).
    - rewrite bind_ret, map_map. f_equal. f_equal.
      apply map_ext_in. intros r Hr. unfold as_text, relabel, chrom_label. simpl fst; simpl snd.
      rewrite nth_update by (rewrite (Hw r Hr); exact Hlt).
      rewrite update_update. reflexivity.
    - intros r Hr. apply in_map_iff in Hr as [r' [<- Hr']].
      unfold as_text. simpl fst; simpl snd.
      rewrite nth_update by (rewrite (Hw r' Hr'); exact Hlt).
      rewrite strip_chr_text, bind_ret. reflexivity. }
  rewrite Hmap.
  destruct (startswith (label i r0) "chr"); reflexivity.
Qed.

(** [plot] never prints the warning and, when it returns, has saved the
    two files. *)
Lemma plot_saved (kwargs : Namespace) (data : DataFrame) :
  (snd (plot_all kwargs data) = Returned tt ->
   saved_files (fst (plot_all kwargs data)) = [manhattan_file kwargs; qq_file kwargs])
  /\ (saved_files (fst (plot_all kwargs data)) = []
      \/ saved_files (fst (plot_all kwargs data)) = [manhattan_file kwargs]
      \/ saved_files (fst (plot_all kwargs data)) = [manhattan_file kwargs; qq_file kwargs]).
Proof.
  unfold plot, getitem. fold (manhattan_file kwargs) (qq_file kwargs).
  repeat run_step; simpl; split; solve [discriminate | auto].
Qed.

Lemma plot_no_warning (kwargs : Namespace) (data : DataFrame) :
  ~ In (Print chr_warning) (fst (plot_all kwargs data)).
Proof.
  unfold plot, getitem.
  repeat run_step; simpl; intros H;
    repeat (destruct H as [H|H]; [discriminate H|]); exact H.
Qed.

Lemma plot_layout_data (kwargs : Namespace) (data d : DataFrame)
      (kw : manhattan_kwargs) :
  In (Manhattan d kw) (fst (plot_all kwargs data)) -> d = data.
Proof.
  unfold plot, getitem.
  repeat run_step; simpl; intros H;
    repeat (destruct H as [H|H]; [try discriminate H; try (injection H as <- _; reflexivity)|]);
    destruct H.
Qed.

(** [main_with] is the backend choice, then [load_data], then [plot]. *)
Lemma main_with_eq (kwargs : Namespace) :
  run_main kwargs =
  match snd (load kwargs) with
  | Returned data =>
      (backend kwargs ++ fst (load kwargs) ++ fst (plot_all kwargs data),
       snd (plot_all kwargs data))
  | Raised e => (backend kwargs ++ fst (load kwargs), Raised e)
  end.
Proof.
  unfold main_with, backend.
  destruct (load kwargs) as [t [data|e]]; destruct (display kwargs); simpl;
    try destruct (plot_all kwargs data); reflexivity.
Qed.

Lemma load_trace (kwargs : Namespace) :
  fst (load kwargs) = [] \/ fst (load kwargs) = [Print chr_warning].
Proof.
  rewrite load_data_eq.
  destruct (read_table (input kwargs)) as [[h b]|e]; [|auto].
  destruct (index_of (chrom kwargs) h) as [i|]; [|auto].
  destruct (find (has_label 0) (rows (dropna (frame_of h b)))) as [r0|]; [|auto].
  simpl. destruct (startswith _ "chr"); auto.
Qed.

Lemma saved_files_app (t u : list event) :
  saved_files (t ++ u) = saved_files t ++ saved_files u.
Proof. apply flat_map_app. Qed.

Lemma backend_saved (kwargs : Namespace) : saved_files (backend kwargs) = [].
Proof. unfold backend. destruct (display kwargs); reflexivity. Qed.

Lemma load_saved (kwargs : Namespace) : saved_files (fst (load kwargs)) = [].
Proof. destruct (load_trace kwargs) as [-> | ->]; reflexivity. Qed.

(** The warning is in the trace of a run exactly when it is in the trace
    of [load_data]. *)
Lemma warning_in_main (kwargs : Namespace) :
  In (Print chr_warning) (fst (run_main kwargs)) <->
  In (Print chr_warning) (fst (load kwargs)).
Proof.
  rewrite main_with_eq.
  assert (Hb : ~ In (Print chr_warning) (backend kwargs))
    by (unfold backend; destruct (display kwargs); simpl; intuition discriminate).
  destruct (snd (load kwargs)) as [data|e]; simpl fst; rewrite ?in_app_iff.
  - pose proof (plot_no_warning kwargs data). tauto.
  - tauto.
Qed.

Lemma warning_iff (kwargs : Namespace) :
  In (Print chr_warning) (fst (run_main kwargs)) <->
  exists h b i r0,
    read_table (input kwargs) = Returned (h, b) /\
    index_of (chrom kwargs) h = Some i /\
    find (has_label 0) (rows (dropna (frame_of h b))) = Some r0 /\
    startswith (label i r0) "chr" = true.
Proof.
  rewrite warning_in_main, load_data_eq. split.
  - destruct (read_table (input kwargs)) as [[h b]|e]; [|intros []].
    destruct (index_of (chrom kwargs) h) as [i|] eqn:Hi; [|intros []].
    destruct (find (has_label 0) (rows (dropna (frame_of h b)))) as [r0|] eqn:Hf;
      [|intros []].
    simpl fst. destruct (startswith (label i r0) "chr") eqn:Hs; [|intros []].
    intros _. exists h, b, i, r0. auto.
  - intros (h & b & i & r0 & -> & -> & -> & Hs). simpl fst. rewrite Hs. left. reflexivity.
Qed.

(** The table handed to the layout. *)
Lemma layout_data (kwargs : Namespace) (data : DataFrame) (kw : manhattan_kwargs) :
  In (Manhattan data kw) (fst (run_main kwargs)) ->
  exists h b i r0,
    read_table (input kwargs) = Returned (h, b) /\
    index_of (chrom kwargs) h = Some i /\
    find (has_label 0) (rows (dropna (frame_of h b))) = Some r0 /\
    data = {| columns := h; rows := map (stripped i) (rows (dropna (frame_of h b))) |}.
Proof.
  rewrite main_with_eq.
  assert (Hb : ~ In (Manhattan data kw) (backend kwargs))
    by (unfold backend; destruct (display kwargs); simpl; intuition discriminate).
  assert (Hl : ~ In (Manhattan data kw) (fst (load kwargs)))
    by (destruct (load_trace kwargs) as [-> | ->]; simpl; intuition discriminate).
  destruct (snd (load kwargs)) as [d|e] eqn:Hd; simpl fst; rewrite ?in_app_iff;
    [|tauto].
  intros [H|[H|H]]; [tauto|tauto|].
  apply plot_layout_data in H. subst d.
  rewrite load_data_eq in Hd.
  destruct (read_table (input kwargs)) as [[h b]|e]; [|discriminate Hd].
  destruct (index_of (chrom kwargs) h) as [i|] eqn:Hi; [|discriminate Hd].
  destruct (find (has_label 0) (rows (dropna (frame_of h b)))) as [r0|] eqn:Hf;
    [|discriminate Hd].
  simpl in Hd. injection Hd as <-. exists h, b, i, r0. auto.
Qed.


(** ** The claims about [main] *)

(** C1.  A table that is empty once the rows with a null are gone does not
    give an empty plot: [data[kwargs.chrom][0]] on line 65 (or the column
    lookup of line 63) raises KeyError, and no file is written. *)
Theorem empty_table_raises_key_error (kwargs : Namespace)
        (h : list string) (b : list (list cell)) :
  read_table (input kwargs) = Returned (h, b) ->
  rows (dropna (frame_of h b)) = [] ->
  (snd (run_main kwargs) = Raised (KeyError (Int 0))
   \/ snd (run_main kwargs) = Raised (KeyError (Str (chrom kwargs))))
  /\ saved_files (fst (run_main kwargs)) = [].
Proof.
  intros Hr He. rewrite main_with_eq.
  pose proof (load_saved kwargs) as Hs. pose proof (backend_saved kwargs) as Hb.
  assert (Hl : snd (load kwargs) = Raised (KeyError (Int 0))
               \/ snd (load kwargs) = Raised (KeyError (Str (chrom kwargs)))).
  { rewrite load_data_eq, Hr.
    destruct (index_of (chrom kwargs) h); [|right; reflexivity].
    rewrite He. left. reflexivity. }
  destruct Hl as [Hl|Hl]; rewrite Hl; simpl; rewrite saved_files_app, Hs, Hb; auto.
Qed.

(** C2, as amended.  [dropna] keeps exactly the rows without a null in any
    column, whatever the column, in their order and under their labels; and
    the table handed to the layout has the rows [dropna] kept. *)
Theorem dropna_keeps_rows_without_null :
  (forall (data : DataFrame) (r : Z * list cell),
      In r (rows (dropna data)) <->
      In r (rows data) /\ forall c, In c (snd r) -> isna c = false)
  /\ (forall data, columns (dropna data) = columns data)
  /\ (forall kwargs data kw,
        In (Manhattan data kw) (fst (run_main kwargs)) ->
        exists h b,
          read_table (input kwargs) = Returned (h, b) /\
          map fst (rows data) = map fst (rows (dropna (frame_of h b)))).
Proof.
  split; [|split].
  - intros data r. unfold dropna; simpl. rewrite filter_In, negb_true_iff.
    split; intros [Hin Hn]; split; try exact Hin.
    + intros c Hc. destruct (isna c) eqn:E; [|reflexivity].
      assert (existsb isna (snd r) = true) by (apply existsb_exists; eauto).
      congruence.
    + destruct (existsb isna (snd r)) eqn:E; [|reflexivity].
      apply existsb_exists in E as [c [Hc Hi]]. rewrite (Hn c Hc) in Hi.
      discriminate.
  - reflexivity.
  - intros kwargs data kw H.
    destruct (layout_data kwargs data kw H) as (h & b & i & r0 & Hr & _ & _ & ->).
    exists h, b. split; [exact Hr|]. simpl. rewrite map_map. reflexivity.
Qed.

(** C3, as amended.  Whenever the layout is called, every row kept by
    [dropna] reaches it with its chromosome label cut by three characters
    when the label starts with "chr" and unchanged otherwise; the cut is
    announced by the warning when the row labelled 0 carries the prefix. *)
Theorem chr_prefix_stripped_before_layout (kwargs : Namespace)
        (data : DataFrame) (kw : manhattan_kwargs) :
  In (Manhattan data kw) (fst (run_main kwargs)) ->
  exists h b i r0,
    read_table (input kwargs) = Returned (h, b) /\
    index_of (chrom kwargs) h = Some i /\
    find (has_label 0) (rows (dropna (frame_of h b))) = Some r0 /\
    columns data = h /\
    rows data = map (stripped i) (rows (dropna (frame_of h b))) /\
    (forall r, In r (rows (dropna (frame_of h b))) ->
       fst (stripped i r) = fst r /\
       nth i (snd (stripped i r)) NaN =
         Str (if startswith (label i r) "chr"
              then slice_from 3 (label i r) else label i r) /\
       (forall j, j <> i -> nth j (snd (stripped i r)) NaN = nth j (snd r) NaN)) /\
    (startswith (label i r0) "chr" = true ->
       In (Print chr_warning) (fst (run_main kwargs))).
Proof.
  intros H.
  destruct (layout_data kwargs data kw H) as (h & b & i & r0 & Hr & Hi & Hf & ->).
  exists h, b, i, r0. repeat split; try assumption; try reflexivity.
  - unfold relabel. simpl snd. apply nth_update.
    rewrite (dropna_width h b r H0). apply (index_of_lt _ _ _ Hi).
  - intros j Hj. unfold relabel. simpl snd. apply nth_update_other. exact Hj.
  - intros Hs. apply warning_iff. exists h, b, i, r0. auto.
Qed.



(** A run that fails has written none of the two files, or the first. *)
Lemma files_written_so_far (kwargs : Namespace) :
  saved_files (fst (run_main kwargs)) = []
  \/ saved_files (fst (run_main kwargs)) = [manhattan_file kwargs]
  \/ saved_files (fst (run_main kwargs)) = [manhattan_file kwargs; qq_file kwargs].
Proof.
  rewrite main_with_eq.
  destruct (snd (load kwargs)) as [data|e]; simpl;
    rewrite !saved_files_app, backend_saved, load_saved; simpl; [|auto].
  apply (proj2 (plot_saved kwargs data)).
Qed.

(** ** The command line *)

Local Abbreviation parse := (parse_commandline_args py_float py_int).

(** An option that is not on the command line leaves its attribute as it
    was. *)
Lemma scan_keeps (d : dest) (flags : list string) :
  (forall tok a, find_argument tok = Some a -> arg_dest a = d -> In tok flags) ->
  forall n argv s s',
    (length argv <= n)%nat ->
    omitted flags argv ->
    scan py_float py_int argv s = Returned s' ->
    lookup d s' = lookup d s.
Proof.
  intros Hflags. induction n as [|n IH]; intros argv s s' Hlen Hom Hs.
  - destruct argv; [|simpl in Hlen; lia]. simpl in Hs. congruence.
  - destruct argv as [|tok rest]; [simpl in Hs; congruence|].
    simpl in Hs, Hlen.
    destruct (is_help tok); [discriminate|].
    destruct (find_argument tok) as [a|] eqn:Ha; [|discriminate].
    assert (Hd : dest_eqb d (arg_dest a) = false).
    { destruct (dest_eqb d (arg_dest a)) eqn:E; [|reflexivity].
      exfalso. apply (Hom tok); [|left; reflexivity].
      apply (Hflags tok a Ha). destruct d, (arg_dest a); simpl in E; congruence. }
    assert (Hrest : omitted flags rest)
      by (intros f Hf Hin; apply (Hom f Hf); right; exact Hin).
    destruct (arg_action a) as [t|].
    + destruct rest as [|v rest']; [discriminate|].
      destruct (startswith v "-"); [discriminate|].
      destruct (convert py_float py_int t v) as [x|e]; [|discriminate].
      rewrite (IH rest' ((arg_dest a, x) :: s) s');
        [simpl; rewrite Hd; reflexivity| | |exact Hs].
      * simpl in Hlen. lia.
      * intros f Hf Hin. apply (Hrest f Hf). right. exact Hin.
    + rewrite (IH rest ((arg_dest a, STrue) :: s) s');
        [simpl; rewrite Hd; reflexivity| |exact Hrest|exact Hs].
      lia.
Qed.

Lemma flags_of_dest (d : dest) (flags : list string) :
  (forall a, In a arguments -> arg_dest a = d -> option_strings a = flags) ->
  forall tok a, find_argument tok = Some a -> arg_dest a = d -> In tok flags.
Proof.
  intros H tok a Hf Hd. apply find_some in Hf as [Hin Hex].
  rewrite <- (H a Hin Hd). apply existsb_exists in Hex as [f [Hf He]].
  apply String.eqb_eq in He. subst f. exact Hf.
Qed.

Lemma omitted_lookup (d : dest) (flags : list string) (argv : list string)
      (s : list (dest * stored)) :
  (forall a, In a arguments -> arg_dest a = d -> option_strings a = flags) ->
  scan py_float py_int argv [] = Returned s ->
  omitted flags argv ->
  lookup d s = None.
Proof.
  intros H Hs Hom.
  apply (scan_keeps d flags (flags_of_dest d flags H) (length argv) argv [] s);
    auto.
Qed.


End DriverFacts.

(** C10.  The warning is printed exactly when the row labelled 0 exists and
    its chromosome label starts with "chr"; the cut itself is made on every
    row by its own label; so a table in which only a later row carries the
    prefix has that label cut and no warning printed. *)
Theorem chr_warning_follows_row_zero_only :
  (forall float_str read_table manhattanplot qqplot savefig kwargs,
      In (Print chr_warning)
         (fst (main_with float_str read_table manhattanplot qqplot savefig kwargs))
      <->
      exists h b i r0,
        read_table (input kwargs) = Returned (h, b) /\
        index_of (chrom kwargs) h = Some i /\
        find (has_label 0) (rows (dropna (frame_of h b))) = Some r0 /\
        startswith (chrom_label float_str i r0) "chr" = true)
  /\ (forall float_str read_table kwargs data,
        snd (load_data float_str read_table kwargs) = Returned data ->
        exists h b i,
          read_table (input kwargs) = Returned (h, b) /\
          index_of (chrom kwargs) h = Some i /\
          rows data = map (relabel float_str i) (rows (dropna (frame_of h b))))
  /\ (printed (fst (Sample.main_with_table Sample.chr_later)) = [done_message]
      /\ In (1%Z, [Str "chr2"; Int 5; Flt 0.25%float; Flt 1%float])
            (rows (dropna (frame_of Sample.header Sample.chr_later)))
      /\ exists data kw,
           In (Manhattan data kw) (fst (Sample.main_with_table Sample.chr_later))
           /\ In (1%Z, [Str "2"; Int 5; Flt 0.25%float; Flt 1%float]) (rows data)).
Proof.
  split; [|split].
  - intros. apply warning_iff.
  - intros float_str read_table kwargs data H. rewrite load_data_eq in H.
    destruct (read_table (input kwargs)) as [[h b]|e]; [|discriminate H].
    destruct (index_of (chrom kwargs) h) as [i|] eqn:Hi; [|discriminate H].
    destruct (find (has_label 0) (rows (dropna (frame_of h b)))) as [r0|];
      [|discriminate H].
    simpl in H. injection H as <-. exists h, b, i. auto.
  - split; [vm_compute; reflexivity|]. split; [vm_compute; auto|].
    eexists; eexists. split.
    + vm_compute. do 3 right. left. reflexivity.
    + vm_compute. auto.
Qed.

(** The run on an empty table: the KeyError of line 65. *)
Lemma empty_table_raises_key_error_witness :
  Sample.table Sample.header [] (input Sample.kwargs) = Returned (Sample.header, [])
  /\ rows (dropna (frame_of Sample.header [])) = []
  /\ (snd (Sample.main_with_table []) = Raised (KeyError (Int 0))
      \/ snd (Sample.main_with_table []) = Raised (KeyError (Str (chrom Sample.kwargs))))
  /\ saved_files (fst (Sample.main_with_table [])) = [].
Proof.
  split; [reflexivity|]. split; [reflexivity|].
  apply (empty_table_raises_key_error Sample.float_str
           (Sample.table Sample.header []) Sample.plots Sample.plots Sample.plots
           Sample.kwargs Sample.header []); reflexivity.
Defined.

(** A row whose required columns hold values and whose BETA is null is in
    the table and is dropped. *)
Lemma row_with_null_elsewhere_is_dropped :
  exists r,
    In r (rows (frame_of Sample.header Sample.null_elsewhere))
    /\ (forall c i, In c ["#CHROM"; "POS"; "P"] ->
                    index_of c Sample.header = Some i ->
                    isna (nth i (snd r) NaN) = false)
    /\ rows (dropna (frame_of Sample.header Sample.null_elsewhere)) = [].
Proof.
  exists (0%Z, [Int 1; Int 100; Flt 0.5%float; NaN]).
  split; [left; reflexivity|]. split; [|reflexivity].
  intros c i [<-|[<-|[<-|[]]]] H; vm_compute in H; injection H as <-; reflexivity.
Qed.

(** On a table whose first row is "chr1", the labels are cut and the run
    prints the warning: the cut is not silent. *)
Lemma chr_strip_prints_warning :
  printed (fst (Sample.main_with_table Sample.chr_first)) = [chr_warning; done_message]
  /\ exists data kw,
       In (Manhattan data kw) (fst (Sample.main_with_table Sample.chr_first))
       /\ map (fun r => nth 0 (snd r) NaN) (rows data) = [Str "1"; Str "2"].
Proof.
  split; [vm_compute; reflexivity|].
  eexists; eexists. split.
  - vm_compute. do 4 right. left. reflexivity.
  - vm_compute. reflexivity.
Qed.

(** * Facts about the plotting components *)

(** ** Q-Q quantile pairing *)

Lemma insert_sorted_perm (p : Q) (l : list Q) : Permutation (insert_sorted p l) (p :: l).
Proof.
  induction l as [|q rest IH]; simpl.
  - apply Permutation_refl.
  - destruct (Qle_bool p q).
    + apply Permutation_refl.
    + apply Permutation_trans with (q :: p :: rest).
      * apply perm_skip. exact IH.
      * apply perm_swap.
Qed.

Lemma sort_ascending_perm (ps : list Q) : Permutation (sort_ascending ps) ps.
Proof.
  induction ps as [|p rest IH]; simpl.
  - apply perm_nil.
  - apply Permutation_trans with (p :: sort_ascending rest).
    + apply insert_sorted_perm.
    + apply perm_skip. exact IH.
Qed.

Lemma Qle_bool_false (p q : Q) : Qle_bool p q = false -> (q <= p)%Q.
Proof.
  intros H. apply Qlt_le_weak. apply Qnot_le_lt. intros Hle.
  apply Qle_bool_iff in Hle. congruence.
Qed.

Lemma insert_sorted_sorted (p : Q) (l : list Q) :
  StronglySorted Qle l -> StronglySorted Qle (insert_sorted p l).
Proof.
  induction l as [|q rest IH]; intros Hs; simpl.
  - constructor; constructor.
  - destruct (Qle_bool p q) eqn:E.
    + apply Qle_bool_iff in E. constructor; [exact Hs|].
      constructor; [exact E|].
      apply StronglySorted_inv in Hs as [_ Hall].
      apply Forall_impl with (P := Qle q); [|exact Hall].
      intros x Hx. apply Qle_trans with q; assumption.
    + apply Qle_bool_false in E.
      apply StronglySorted_inv in Hs as [Hrest Hall].
      constructor; [apply IH; exact Hrest|].
      apply Forall_forall. intros x Hx.
      apply (Permutation_in _ (insert_sorted_perm p rest)) in Hx.
      destruct Hx as [<-|Hx]; [exact E|].
      apply (proj1 (Forall_forall _ _) Hall x Hx).
Qed.

Lemma sort_ascending_sorted (ps : list Q) : StronglySorted Qle (sort_ascending ps).
Proof.
  induction ps as [|p rest IH]; simpl.
  - constructor.
  - apply insert_sorted_sorted. exact IH.
Qed.

Lemma sort_ascending_length (ps : list Q) : length (sort_ascending ps) = length ps.
Proof. apply Permutation_length, sort_ascending_perm. Qed.

Lemma qq_pairing_length (ps : list Q) : length (qq_pairing ps) = length ps.
Proof.
  unfold qq_pairing. rewrite length_map, length_combine, length_seq.
  rewrite sort_ascending_length. apply Nat.min_id.
Qed.

Lemma qq_pairing_nth (ps : list Q) (k : nat) :
  (1 <= k <= length ps)%nat ->
  nth (k - 1) (qq_pairing ps) (0%R, 0%R) =
  (expected (length ps) k, observed (nth (k - 1) (sort_ascending ps) 0%Q)).
Proof.
  intros Hk. unfold qq_pairing.
  set (f := fun kp : nat * Q => (expected (length ps) (fst kp), observed (snd kp))).
  rewrite (nth_indep _ (0%R, 0%R) (f (O, 0%Q))).
  2:{ rewrite length_map, length_combine, length_seq, sort_ascending_length. lia. }
  rewrite map_nth.
  rewrite combine_nth by (rewrite length_seq, sort_ascending_length; reflexivity).
  rewrite seq_nth by lia. unfold f. simpl fst; simpl snd.
  replace (S (k - 1)) with k by lia. reflexivity.
Qed.


(** C4.  For n > 0 p-values the pairing has n points; the point of rank k
    pairs -log10(k/(n+1)) with -log10 of the k-th smallest p-value, the
    p-values being taken in ascending order; for [0.5, 0.1, 0.01] the
    expected values are -log10(1/4), -log10(2/4), -log10(3/4). *)
Theorem qq_pairing_rank_order :
  (forall ps : list Q,
      (0 < length ps)%nat ->
      Permutation (sort_ascending ps) ps
      /\ StronglySorted Qle (sort_ascending ps)
      /\ length (qq_pairing ps) = length ps
      /\ forall k, (1 <= k <= length ps)%nat ->
           nth (k - 1) (qq_pairing ps) (0%R, 0%R) =
           ((- Rlog 10 (INR k / INR (length ps + 1)))%R,
            (- Rlog 10 (Q2R (nth (k - 1) (sort_ascending ps) 0%Q)))%R))
  /\ sort_ascending [0.5; 0.1; 0.01]%Q = [0.01; 0.1; 0.5]%Q
  /\ map fst (qq_pairing [0.5; 0.1; 0.01]%Q) =
     [(- Rlog 10 (1 / 4))%R; (- Rlog 10 (2 / 4))%R; (- Rlog 10 (3 / 4))%R].
Proof.
  split; [|split].
  - intros ps _. split; [apply sort_ascending_perm|].
    split; [apply sort_ascending_sorted|].
    split; [apply qq_pairing_length|].
    intros k Hk. apply qq_pairing_nth. exact Hk.
  - reflexivity.
  - unfold qq_pairing, expected, neg_log10. simpl.
    repeat (f_equal; try lra).
Qed.

(** ** Top-signal window selection *)

Lemma window_eqb_eq (a b : string * N) : window_eqb a b = true <-> a = b.
Proof.
  unfold window_eqb. destruct a as [c k], b as [c' k']. simpl.
  rewrite andb_true_iff, String.eqb_eq, N.eqb_eq. split.
  - intros [-> ->]. reflexivity.
  - intros H. injection H as -> ->. auto.
Qed.

Lemma more_significant_lt (a b : MarkerRecord) :
  more_significant a b = true -> (p_value a < p_value b)%Q.
Proof.
  unfold more_significant. rewrite negb_true_iff. intros H.
  apply Qnot_le_lt. intros Hle. apply Qle_bool_iff in Hle. congruence.
Qed.

Lemma not_more_significant_le (a b : MarkerRecord) :
  more_significant a b = false -> (p_value b <= p_value a)%Q.
Proof.
  unfold more_significant. rewrite negb_false_iff. apply Qle_bool_iff.
Qed.

(** The two ways a record meets the minima: its window is new, or it
    challenges the minimum its window already has. *)
Lemma meet_cases (w : N) (r : MarkerRecord) (best : list MarkerRecord) :
  ((forall b, In b best -> window_of w b <> window_of w r)
   /\ meet w r best = best ++ [r])
  \/ (exists l1 b l2,
         best = l1 ++ b :: l2
         /\ window_of w b = window_of w r
         /\ (forall x, In x l1 -> window_of w x <> window_of w r)
         /\ meet w r best = l1 ++ (if more_significant r b then r else b) :: l2).
Proof.
  induction best as [|b rest IH]; simpl.
  - left. split; [intros b []|reflexivity].
  - destruct (window_eqb (window_of w r) (window_of w b)) eqn:E.
    + apply window_eqb_eq in E. right. exists [], b, rest.
      repeat split; auto; intros x [].
    + assert (Hne : window_of w b <> window_of w r).
      { intros H. rewrite H in E.
        assert (window_eqb (window_of w r) (window_of w r) = true)
          by (apply window_eqb_eq; reflexivity).
        congruence. }
      destruct IH as [[Hnone ->]|(l1 & b' & l2 & -> & Hk & Hl1 & ->)].
      * left. split; [|reflexivity]. intros x [<-|Hx]; auto.
      * right. exists (b :: l1), b', l2. repeat split; auto.
        intros x [<-|Hx]; auto.
Qed.

Lemma NoDup_map_same {A B} (f : A -> B) (l : list A) (a b : A) :
  NoDup (map f l) -> In a l -> In b l -> f a = f b -> a = b.
Proof.
  induction l as [|x t IH]; simpl; intros Hnd Ha Hb Hf; [destruct Ha|].
  apply NoDup_cons_iff in Hnd as [Hx Hnd].
  destruct Ha as [<-|Ha], Hb as [<-|Hb]; auto.
  - exfalso. apply Hx. rewrite Hf. apply in_map. exact Hb.
  - exfalso. apply Hx. rewrite <- Hf. apply in_map. exact Ha.
Qed.

Lemma NoDup_map_filter {A B} (f : A -> B) (g : A -> bool) (l : list A) :
  NoDup (map f l) -> NoDup (map f (filter g l)).
Proof.
  induction l as [|x t IH]; simpl; intros Hnd; [constructor|].
  apply NoDup_cons_iff in Hnd as [Hx Hnd].
  destruct (g x); simpl; [|apply IH; exact Hnd].
  constructor; [|apply IH; exact Hnd].
  intros Hin. apply Hx. apply in_map_iff in Hin as [y [Hy Hyin]].
  apply filter_In in Hyin as [Hyin _]. rewrite <- Hy. apply in_map. exact Hyin.
Qed.

Lemma minima_of_least (w : N) (seen best : list MarkerRecord) :
  minima_of w seen best ->
  forall m r, In m best -> In r seen -> window_of w r = window_of w m ->
              (p_value m <= p_value r)%Q.
Proof.
  intros [Hnd Hev _] m r Hm Hr Hk.
  destruct (Hev r Hr) as (m' & Hm' & Hk' & Hle).
  assert (m' = m) by (apply (NoDup_map_same (window_of w) best); congruence).
  subst m'. exact Hle.
Qed.

Lemma minima_of_nil (w : N) : minima_of w [] [].
Proof.
  constructor.
  - constructor.
  - intros r [].
  - intros m [].
Qed.

Lemma minima_of_step (w : N) (seen best : list MarkerRecord) (r : MarkerRecord) :
  minima_of w seen best -> minima_of w (seen ++ [r]) (meet w r best).
Proof.
  intros Hinv. pose proof (minima_of_least w seen best Hinv) as Hleast.
  destruct Hinv as [Hnd Hev Hfirst].
  assert (Hkeep : forall m, In m best ->
            exists before after,
              seen ++ [r] = before ++ m :: after
              /\ forall x, In x before -> window_of w x = window_of w m ->
                           (p_value m < p_value x)%Q).
  { intros m Hm. destruct (Hfirst m Hm) as (before & after & -> & Hb).
    exists before, (after ++ [r]). split; [|exact Hb].
    rewrite <- app_assoc. reflexivity. }
  destruct (meet_cases w r best)
    as [[Hnone ->]|(l1 & b & l2 & Hbest & Hk & Hl1 & ->)].
  - (* a new window *)
    assert (Hnew : forall x, In x seen -> window_of w x <> window_of w r).
    { intros x Hx Hkx. destruct (Hev x Hx) as (m & Hm & Hkm & _).
      apply (Hnone m Hm). congruence. }
    constructor.
    + rewrite map_app. simpl.
      apply (Permutation_NoDup (Permutation_cons_append _ _)).
      constructor; [|exact Hnd].
      intros Hin. apply in_map_iff in Hin as [b [Hb Hbin]].
      apply (Hnone b Hbin Hb).
    + intros x Hx. apply in_app_iff in Hx as [Hx|[<-|[]]].
      * destruct (Hev x Hx) as (m & Hm & Hkm & Hle).
        exists m. rewrite in_app_iff. auto.
      * exists r. rewrite in_app_iff. simpl. repeat split; auto. apply Qle_refl.
    + intros m Hm. apply in_app_iff in Hm as [Hm|[<-|[]]].
      * apply Hkeep. exact Hm.
      * exists seen, []. split; [reflexivity|].
        intros x Hx Hkx. exfalso. apply (Hnew x Hx Hkx).
  - (* the window has a minimum already *)
    assert (Hb : In b best) by (rewrite Hbest, in_app_iff; simpl; auto).
    assert (Hin : forall m, In m (l1 ++ (if more_significant r b then r else b) :: l2) ->
                    (In m best /\ (m <> b \/ more_significant r b = false))
                    \/ (m = r /\ more_significant r b = true)).
    { intros m Hm. apply in_app_iff in Hm as [Hm|[Hm|Hm]].
      - left. split; [rewrite Hbest, in_app_iff; auto|].
        left. intros ->. apply (Hl1 b Hm Hk).
      - destruct (more_significant r b); [right; auto|left; subst m; auto].
      - left. split; [rewrite Hbest, in_app_iff; simpl; auto|].
        left. intros ->. rewrite Hbest, map_app in Hnd. simpl in Hnd.
        apply NoDup_remove_2 in Hnd. apply Hnd. rewrite in_app_iff. right.
        apply in_map. exact Hm. }
    constructor.
    + replace (map (window_of w) (l1 ++ (if more_significant r b then r else b) :: l2))
        with (map (window_of w) best); [exact Hnd|].
      rewrite Hbest, !map_app. simpl. destruct (more_significant r b); congruence.
    + intros x Hx. apply in_app_iff in Hx as [Hx|[<-|[]]].
      * destruct (Hev x Hx) as (m & Hm & Hkm & Hle).
        rewrite Hbest in Hm. apply in_app_iff in Hm as [Hm|[<-|Hm]].
        -- exists m. rewrite in_app_iff. auto.
        -- destruct (more_significant r b) eqn:E.
           ++ exists r. rewrite in_app_iff. simpl. repeat split; auto; [congruence|].
              apply Qlt_le_weak. apply Qlt_le_trans with (p_value b); [|exact Hle].
              apply more_significant_lt. exact E.
           ++ exists b. rewrite in_app_iff. simpl. auto.
        -- exists m. rewrite in_app_iff. simpl. auto.
      * destruct (more_significant r b) eqn:E.
        -- exists r. rewrite in_app_iff. simpl. repeat split; auto. apply Qle_refl.
        -- exists b. rewrite in_app_iff. simpl. repeat split; auto.
           apply not_more_significant_le. exact E.
    + intros m Hm. destruct (Hin m Hm) as [[Hmb _]|[-> E]].
      * apply Hkeep. exact Hmb.
      * exists seen, []. split; [reflexivity|].
        intros x Hx Hkx.
        apply Qlt_le_trans with (p_value b); [apply more_significant_lt; exact E|].
        apply (Hleast b x Hb Hx). congruence.
Qed.

Lemma fold_meet (w : N) (records seen best : list MarkerRecord) :
  minima_of w seen best ->
  minima_of w (seen ++ records) (fold_left (fun best r => meet w r best) records best).
Proof.
  revert seen best. induction records as [|r rest IH]; intros seen best H; simpl.
  - rewrite app_nil_r. exact H.
  - replace (seen ++ r :: rest) with ((seen ++ [r]) ++ rest)
      by (rewrite <- app_assoc; reflexivity).
    apply IH. apply minima_of_step. exact H.
Qed.

Lemma window_minima_of (w : N) (records : list MarkerRecord) :
  minima_of w records (window_minima w records).
Proof. apply (fold_meet w records [] []). apply minima_of_nil. Qed.

Lemma window_bounds (w : N) (r : MarkerRecord) :
  (0 < w)%N ->
  (snd (window_of w r) * w <= position r < (snd (window_of w r) + 1) * w)%N.
Proof.
  intros Hw. unfold window_of. simpl.
  pose proof (N.Div0.mul_div_le (position r) w) as Hle.
  pose proof (N.mul_succ_div_gt (position r) w ltac:(lia)) as Hgt.
  rewrite (N.mul_comm _ w), (N.mul_comm _ w), N.add_1_r. split; assumption.
Qed.

(** C5.  For a window size w > 0 the windows are the consecutive half-open
    intervals of w positions of each chromosome; of every window that holds
    a record exactly one record is retained; it has the least p-value of its
    window and is the first in input order to have it; and the records
    selected for annotation are the retained ones that carry an annotation,
    so no two of them share chromosome and window. *)
Theorem one_top_signal_per_window (w : N) (records : list MarkerRecord) :
  (0 < w)%N ->
  (forall r,
      (snd (window_of w r) * w <= position r < (snd (window_of w r) + 1) * w)%N)
  /\ NoDup (map (window_of w) (window_minima w records))
  /\ (forall r, In r records ->
        exists m, In m (window_minima w records)
                  /\ window_of w m = window_of w r)
  /\ (forall m, In m (window_minima w records) ->
        (forall r, In r records -> window_of w r = window_of w m ->
                   (p_value m <= p_value r)%Q)
        /\ exists before after,
             records = before ++ m :: after
             /\ forall x, In x before -> window_of w x = window_of w m ->
                          (p_value m < p_value x)%Q)
  /\ (forall m, In m (top_signal_selection w records) <->
                In m (window_minima w records) /\ annotation m <> None)
  /\ NoDup (map (window_of w) (top_signal_selection w records)).
Proof.
  intros Hw. pose proof (window_minima_of w records) as Hinv.
  split; [intros r; apply window_bounds; exact Hw|].
  split; [apply (one_per_window _ _ _ Hinv)|].
  split.
  { intros r Hr. destruct (every_window _ _ _ Hinv r Hr) as (m & Hm & Hk & _).
    exists m. auto. }
  split.
  { intros m Hm. split.
    - intros r Hr Hk. apply (minima_of_least w records _ Hinv m r Hm Hr Hk).
    - apply (first_minimum _ _ _ Hinv m Hm). }
  split.
  { intros m. unfold top_signal_selection, annotated. rewrite filter_In.
    destruct (annotation m); split; intros [H1 H2]; split; auto; congruence. }
  apply NoDup_map_filter. apply (one_per_window _ _ _ Hinv).
Qed.

(** ** Chromosome layout *)

Lemma position_le_width (records : list MarkerRecord) (r : MarkerRecord) :
  In r records -> (position r <= width records (chromosome r))%N.
Proof.
  unfold width. induction records as [|x rest IH]; intros Hr; [destruct Hr|].
  simpl. destruct Hr as [->|Hr].
  - unfold on_chromosome at 1. rewrite String.eqb_refl. simpl. lia.
  - specialize (IH Hr). destruct (on_chromosome (chromosome r) x); simpl; lia.
Qed.

Lemma width_no_record (records : list MarkerRecord) (c : string) :
  (forall r, In r records -> chromosome r <> c) -> width records c = 0%N.
Proof.
  unfold width. induction records as [|x rest IH]; intros H; [reflexivity|].
  simpl. unfold on_chromosome at 1.
  destruct (String.eqb (chromosome x) c) eqn:E.
  - apply String.eqb_eq in E. exfalso. apply (H x); [left; reflexivity|exact E].
  - apply IH. intros r Hr. apply H. right. exact Hr.
Qed.

Lemma total_width_app (records : list MarkerRecord) (a b : list string) :
  total_width records (a ++ b) = (total_width records a + total_width records b)%N.
Proof.
  unfold total_width. induction a as [|c rest IH]; simpl; [reflexivity|].
  rewrite IH. lia.
Qed.

Lemma offset_in_offsets (records : list MarkerRecord)
      (pre : list string) (c : string) (post : list string) (start : N) :
  ~ In c pre ->
  offset_in c (offsets records (pre ++ c :: post) start)
  = Some (start + total_width records pre)%N.
Proof.
  revert start. induction pre as [|p rest IH]; intros start Hc; simpl.
  - rewrite String.eqb_refl. f_equal. unfold total_width. simpl. lia.
  - destruct (String.eqb c p) eqn:E.
    + apply String.eqb_eq in E. exfalso. apply Hc. left. auto.
    + rewrite IH by (intros H; apply Hc; right; exact H).
      f_equal. unfold total_width. simpl. lia.
Qed.

Lemma offset_in_known (records : list MarkerRecord) (order : list string)
      (c : string) (start : N) :
  In c order <-> exists o, offset_in c (offsets records order start) = Some o.
Proof.
  revert start. induction order as [|p rest IH]; intros start; simpl.
  - split; [intros []|intros [o H]; discriminate].
  - destruct (String.eqb c p) eqn:E.
    + apply String.eqb_eq in E. split; [eauto|auto].
    + rewrite <- IH. split; [intros [H|H]; [|exact H]|auto].
      subst p. rewrite String.eqb_refl in E. discriminate.
Qed.

Lemma place_spec (policy : unknown_label) (table : list (string * N))
      (records : list MarkerRecord) (placed : list (MarkerRecord * N)) :
  place policy table records = Some placed ->
  forall r x, In (r, x) placed ->
    In r records
    /\ exists o, offset_in (chromosome r) table = Some o /\ x = (position r + o)%N.
Proof.
  revert placed. induction records as [|y rest IH]; intros placed H r x Hin; simpl in H.
  - injection H as <-. destruct Hin.
  - destruct (place policy table rest) as [p|] eqn:Hp.
    2:{ destruct (offset_in (chromosome y) table); discriminate. }
    destruct (offset_in (chromosome y) table) as [o|] eqn:Ho.
    + injection H as <-. destruct Hin as [Hin|Hin].
      * injection Hin as <- <-. split; [left; reflexivity|eauto].
      * destruct (IH p eq_refl r x Hin) as [Hr Hx]. split; [right; exact Hr|exact Hx].
    + destruct policy; [|discriminate]. injection H as <-.
      destruct (IH p eq_refl r x Hin) as [Hr Hx]. split; [right; exact Hr|exact Hx].
Qed.

Lemma place_all (policy : unknown_label) (table : list (string * N))
      (records : list MarkerRecord) :
  (forall r, In r records -> exists o, offset_in (chromosome r) table = Some o) ->
  exists placed, place policy table records = Some placed
                 /\ map fst placed = records.
Proof.
  induction records as [|y rest IH]; intros H; simpl.
  - exists []. auto.
  - destruct IH as (p & -> & Hp); [intros r Hr; apply H; right; exact Hr|].
    destruct (H y (or_introl eq_refl)) as [o ->].
    eexists. split; [reflexivity|]. simpl. rewrite Hp. reflexivity.
Qed.

Lemma place_drop (table : list (string * N)) (records : list MarkerRecord) :
  exists placed, place DropRecord table records = Some placed.
Proof.
  induction records as [|y rest [p IH]]; simpl; [eauto|].
  rewrite IH. destruct (offset_in (chromosome y) table); eauto.
Qed.

(** C6.  The x-coordinate of a placed record is its position plus the
    offset of its chromosome; the offset of a chromosome is the sum of the
    widths of the chromosomes before it in display order, so the offset of
    the next chromosome is the offset of this one plus this one's width; a
    chromosome without records has width zero; and the coordinates never
    go down from a chromosome to a later one. *)
Theorem layout_is_cumulative (policy : unknown_label) (order : list string)
        (records : list MarkerRecord) :
  (forall placed, chromosome_layout policy order records = Some placed ->
     forall r x, In (r, x) placed ->
       In r records
       /\ exists o, offset_of records order (chromosome r) = Some o
                    /\ x = (position r + o)%N)
  /\ (forall pre c post, order = pre ++ c :: post -> ~ In c pre ->
        offset_of records order c = Some (total_width records pre))
  /\ (forall pre a b post, order = pre ++ a :: b :: post ->
        ~ In a pre -> ~ In b (pre ++ [a]) ->
        exists oa ob,
          offset_of records order a = Some oa
          /\ offset_of records order b = Some ob
          /\ ob = (oa + width records a)%N)
  /\ (forall c, (forall r, In r records -> chromosome r <> c) ->
        width records c = 0%N)
  /\ (forall placed, chromosome_layout policy order records = Some placed ->
        forall pre a mid b post, order = pre ++ a :: mid ++ b :: post ->
          ~ In a pre -> ~ In b (pre ++ a :: mid) ->
          forall ra xa rb xb,
            In (ra, xa) placed -> In (rb, xb) placed ->
            chromosome ra = a -> chromosome rb = b ->
            (xa <= xb)%N /\ ((0 < position rb)%N -> (xa < xb)%N))
  /\ ((forall r, In r records -> In (chromosome r) order) ->
        exists placed, chromosome_layout policy order records = Some placed
                       /\ map fst placed = records)
  /\ (exists placed, chromosome_layout DropRecord order records = Some placed).
Proof.
  assert (Hoff : forall pre c post, order = pre ++ c :: post -> ~ In c pre ->
            offset_of records order c = Some (total_width records pre)).
  { intros pre c post -> Hc. unfold offset_of.
    rewrite offset_in_offsets by exact Hc. f_equal. }
  split; [|split; [exact Hoff|split; [|split; [|split; [|split]]]]].
  - intros placed H r x Hin. apply (place_spec _ _ _ _ H r x Hin).
  - intros pre a b post Ho Ha Hb.
    exists (total_width records pre), (total_width records (pre ++ [a])).
    split; [apply (Hoff pre a (b :: post) Ho Ha)|].
    split.
    + apply (Hoff (pre ++ [a]) b post); [|exact Hb].
      rewrite Ho, <- app_assoc. reflexivity.
    + rewrite total_width_app. unfold total_width at 2. simpl. lia.
  - apply width_no_record.
  - intros placed H pre a mid b post Ho Ha Hb ra xa rb xb Hra Hrb Hca Hcb.
    destruct (place_spec _ _ _ _ H ra xa Hra) as [Hina (oa & Hoa & ->)].
    destruct (place_spec _ _ _ _ H rb xb Hrb) as [Hinb (ob & Hob & ->)].
    fold (offset_of records order (chromosome ra)) in Hoa.
    fold (offset_of records order (chromosome rb)) in Hob.
    rewrite Hca, (Hoff pre a (mid ++ b :: post) Ho Ha) in Hoa.
    rewrite Hcb, (Hoff (pre ++ a :: mid) b post) in Hob;
      [|rewrite Ho, <- app_assoc; reflexivity|exact Hb].
    injection Hoa as <-. injection Hob as <-.
    pose proof (position_le_width records ra Hina) as Hw. rewrite Hca in Hw.
    rewrite total_width_app.
    change (total_width records (a :: mid))
      with (width records a + total_width records mid)%N.
    lia.
  - intros Hall. apply place_all. intros r Hr.
    apply (offset_in_known records order (chromosome r) 0%N). apply Hall. exact Hr.
  - apply place_drop.
Qed.

(** * The claims on sample inputs *)

(** The layout of the sample table whose first row is "chr1". *)
Lemma chr_prefix_stripped_before_layout_witness :
  In (Manhattan Sample.chr_first_stripped Sample.layout_kwargs)
     (fst (Sample.main_with_table Sample.chr_first))
  /\ exists i r0,
       index_of (chrom Sample.kwargs) Sample.header = Some i
       /\ find (has_label 0) (rows (dropna (frame_of Sample.header Sample.chr_first)))
          = Some r0
       /\ rows Sample.chr_first_stripped
          = map (relabel Sample.float_str i)
                (rows (dropna (frame_of Sample.header Sample.chr_first)))
       /\ In (Print chr_warning) (fst (Sample.main_with_table Sample.chr_first)).
Proof.
  assert (H : In (Manhattan Sample.chr_first_stripped Sample.layout_kwargs)
                 (fst (Sample.main_with_table Sample.chr_first)))
    by (vm_compute; do 4 right; left; reflexivity).
  split; [exact H|].
  destruct (chr_prefix_stripped_before_layout Sample.float_str
              (Sample.table Sample.header Sample.chr_first)
              Sample.plots Sample.plots Sample.plots Sample.kwargs
              Sample.chr_first_stripped Sample.layout_kwargs H)
    as (h & b & i & r0 & Hr & Hi & Hf & _ & Hrows & _ & Hwarn).
  injection Hr as <- <-.
  exists i, r0. repeat split; try assumption.
  apply Hwarn. revert Hi Hf. vm_compute. intros Hi Hf.
  injection Hi as <-. injection Hf as <-. reflexivity.
Defined.


Lemma omitted_sample (flags : list string) :
  forallb (fun f => negb (existsb (String.eqb f) Sample.argv)) flags = true ->
  omitted flags Sample.argv.
Proof.
  intros H f Hf Hin. rewrite forallb_forall in H. specialize (H f Hf).
  apply negb_true_iff in H.
  assert (existsb (String.eqb f) Sample.argv = true).
  { apply existsb_exists. exists f. split; [exact Hin|apply String.eqb_refl]. }
  congruence.
Defined.


(** The windows of the example of section 8, for a window of 100000. *)
Lemma one_top_signal_per_window_witness :
  (0 < 100000)%N
  /\ NoDup (map (window_of 100000) (window_minima 100000 example_records))
  /\ map (window_of 100000) (window_minima 100000 example_records)
     = [("chr1", 0%N); ("chr1", 1%N); ("chr2", 0%N)].
Proof.
  split; [reflexivity|]. split; [|reflexivity].
  exact (proj1 (proj2 (one_top_signal_per_window 100000 example_records eq_refl))).
Defined.


(** * More about the driver *)

Lemma fit_full (w : nat) (r : list cell) : length r = w -> fit w r = r.
Proof.
  intros <-. unfold fit. rewrite firstn_app, Nat.sub_diag, firstn_all. simpl.
  apply app_nil_r.
Qed.

Lemma find_all_false {A} (f : A -> bool) (l : list A) :
  (forall x, In x l -> f x = false) -> find f l = None.
Proof.
  intros H. destruct (find f l) as [x|] eqn:E; [|reflexivity].
  apply find_some in E as [Hin Hf]. rewrite (H x Hin) in Hf. discriminate.
Qed.

Lemma later_labels (k n : nat) (xs : list (list cell)) (r : Z * list cell) :
  In r (combine (map Z.of_nat (seq (S k) n)) xs) -> has_label 0 r = false.
Proof.
  intros H. destruct r as [l cs]. apply in_combine_l in H.
  apply in_map_iff in H as [j [<- Hj]]. apply in_seq in Hj.
  unfold has_label. simpl. apply Z.eqb_neq. lia.
Qed.

(** The row labelled 0 after [dropna] is the first row of the file, and it
    is there only when it holds no null. *)
Lemma find_row_zero (h : list string) (b : list (list cell)) :
  find (has_label 0) (rows (dropna (frame_of h b))) =
  match b with
  | [] => None
  | r :: _ =>
      if existsb isna (fit (length h) r) then None
      else Some (0%Z, fit (length h) r)
  end.
Proof.
  destruct b as [|r rest]; [reflexivity|].
  unfold dropna, frame_of. simpl rows. simpl length. simpl seq. simpl map.
  simpl combine. simpl filter.
  assert (Hrest : find (has_label 0)
            (filter (fun r0 : Z * list cell => negb (existsb isna (snd r0)))
               (combine (map Z.of_nat (seq 1 (length rest)))
                        (map (fit (length h)) rest))) = None).
  { apply find_all_false. intros x Hx. apply filter_In in Hx as [Hx _].
    apply (later_labels 0 _ _ _ Hx). }
  destruct (existsb isna (fit (length h) r)); simpl; [exact Hrest|reflexivity].
Qed.

Lemma index_of_none (c : string) (cs : list string) :
  ~ In c cs -> index_of c cs = None.
Proof.
  induction cs as [|c' rest IH]; intros H; simpl; [reflexivity|].
  destruct (String.eqb c c') eqn:E.
  - apply String.eqb_eq in E. exfalso. apply H. left. auto.
  - rewrite IH; [reflexivity|]. intros Hin. apply H. right. exact Hin.
Qed.

Lemma index_of_in (c : string) (cs : list string) (i : nat) :
  index_of c cs = Some i -> In c cs.
Proof.
  revert i. induction cs as [|c' rest IH]; simpl; intros i H; [discriminate|].
  destruct (String.eqb c c') eqn:E.
  - apply String.eqb_eq in E. left. auto.
  - destruct (index_of c rest) as [j|]; [|discriminate]. right. apply (IH j eq_refl).
Qed.

Lemma index_of_known (c : string) (cs : list string) :
  In c cs -> index_of c cs <> None.
Proof.
  induction cs as [|c' rest IH]; intros H; [destruct H|]. simpl.
  destruct (String.eqb c c') eqn:E; [discriminate|].
  destruct H as [->|H]; [rewrite String.eqb_refl in E; discriminate|].
  specialize (IH H). destruct (index_of c rest); [discriminate|congruence].
Qed.

Section DriverCases.

Variable py_float : string -> option float.
Variable py_int : string -> option Z.
Variable float_str : float -> string.
Variable read_table : string -> outcome (list string * list (list cell)).
Variable manhattanplot : DataFrame -> manhattan_kwargs -> option exn.
Variable qqplot : Series -> option string -> option exn.
Variable savefig : string -> pynum -> option exn.

(** The driver run against the collaborators of this section. *)
Local Abbreviation load := (load_data float_str read_table).
Local Abbreviation plot_all := (plot manhattanplot qqplot savefig).
Local Abbreviation run_main :=
  (main_with float_str read_table manhattanplot qqplot savefig).
Local Abbreviation run_argv :=
  (main py_float py_int float_str read_table manhattanplot qqplot savefig).
Local Abbreviation parse := (parse_commandline_args py_float py_int).

Lemma plot_calls_layout (kwargs : Namespace) (data : DataFrame) :
  In (Manhattan data (layout_kwargs_of kwargs)) (fst (plot_all kwargs data)).
Proof.
  unfold plot, getitem, layout_kwargs_of.
  repeat run_step; simpl; auto.
Qed.

Lemma plot_layout_kwargs (kwargs : Namespace) (data d : DataFrame)
      (kw : manhattan_kwargs) :
  In (Manhattan d kw) (fst (plot_all kwargs data)) -> kw = layout_kwargs_of kwargs.
Proof.
  unfold plot, getitem, layout_kwargs_of.
  repeat run_step; simpl; intros H;
    repeat (destruct H as [H|H];
            [try discriminate H; try (injection H as _ <-; reflexivity)|]);
    destruct H.
Qed.

(** X1.  When the first row of the file holds a null, [dropna] removes the
    row labelled 0 and the lookup of line 65 raises KeyError(0), whatever
    rows are left: nothing is printed, plotted or saved. *)
Theorem first_row_null_raises_key_error (kwargs : Namespace)
        (h : list string) (r : list cell) (rest : list (list cell)) :
  read_table (input kwargs) = Returned (h, r :: rest) ->
  In (chrom kwargs) h ->
  existsb isna (fit (length h) r) = true ->
  run_main kwargs = (backend kwargs, Raised (KeyError (Int 0))).
Proof.
  intros Hr Hc Hn. rewrite main_with_eq, load_data_eq, Hr.
  destruct (index_of (chrom kwargs) h) as [i|] eqn:Hi.
  - rewrite find_row_zero, Hn. simpl. rewrite app_nil_r. reflexivity.
  - exfalso. apply (index_of_known _ _ Hc Hi).
Qed.





Lemma plot_done (kwargs : Namespace) (data : DataFrame) :
  In (Print done_message) (fst (plot_all kwargs data))
  <-> snd (plot_all kwargs data) = Returned tt.
Proof.
  unfold plot, getitem.
  repeat run_step; simpl; split; intros H; try reflexivity; try discriminate H;
    try (repeat (destruct H as [H|H]; [discriminate H|]); destruct H);
    auto 20.
Qed.

Lemma plot_done_last (kwargs : Namespace) (data : DataFrame) :
  snd (plot_all kwargs data) = Returned tt ->
  exists t, fst (plot_all kwargs data) = t ++ [Print done_message]
            /\ ~ In (Print done_message) t.
Proof.
  unfold plot, getitem.
  repeat run_step; simpl; intros H; try discriminate H;
    match goal with
    | |- exists t, ?l = t ++ [_] /\ _ => exists (removelast l)
    end;
    (split; [reflexivity|]);
    simpl; intros Hin;
    repeat (destruct Hin as [Hin|Hin]; [discriminate Hin|]); destruct Hin.
Qed.

(** X6.  The footer is printed exactly in the runs that complete, and it is
    then the last thing the run does. *)
Theorem done_message_iff_completed (kwargs : Namespace) :
  (In (Print done_message) (fst (run_main kwargs))
   <-> snd (run_main kwargs) = Returned tt)
  /\ (snd (run_main kwargs) = Returned tt ->
      exists t, fst (run_main kwargs) = t ++ [Print done_message]
                /\ ~ In (Print done_message) t).
Proof.
  assert (Hb : ~ In (Print done_message) (backend kwargs))
    by (unfold backend; destruct (display kwargs); simpl; intuition discriminate).
  assert (Hl : ~ In (Print done_message) (fst (load kwargs))).
  { destruct (load_trace float_str read_table kwargs) as [-> | ->]; simpl;
      [tauto|]. intros [H|[]]. discriminate H. }
  rewrite main_with_eq.
  destruct (snd (load kwargs)) as [data|e]; simpl fst; simpl snd.
  - split.
    + rewrite !in_app_iff. pose proof (plot_done kwargs data). tauto.
    + intros H. destruct (plot_done_last kwargs data H) as (t & -> & Ht).
      exists (backend kwargs ++ fst (load kwargs) ++ t).
      split; [rewrite <- !app_assoc; reflexivity|].
      rewrite !in_app_iff. tauto.
  - split; [|discriminate]. rewrite in_app_iff. split; [tauto|discriminate].
Qed.


Lemma shown_app (t u : list event) : shown (t ++ u) = (shown t + shown u)%nat.
Proof. unfold shown. rewrite filter_app, length_app. reflexivity. Qed.

Lemma plot_shown (kwargs : Namespace) (data : DataFrame) :
  (forall name, ~ In (UseBackend name) (fst (plot_all kwargs data)))
  /\ (display kwargs = false -> shown (fst (plot_all kwargs data)) = 0%nat)
  /\ (display kwargs = true ->
      (shown (fst (plot_all kwargs data)) <= 2)%nat
      /\ (snd (plot_all kwargs data) = Returned tt ->
          shown (fst (plot_all kwargs data)) = 2%nat)).
Proof.
  unfold plot, getitem.
  repeat run_step; simpl;
    (split;
     [ intros name H; repeat (destruct H as [H|H]; [discriminate H|]); destruct H
     | split;
       [ intros H; first [discriminate H | reflexivity]
       | intros H;
         first [ discriminate H
               | split; [unfold shown; simpl; lia
                        |intros H'; first [discriminate H' | reflexivity]] ] ] ]).
Qed.

(** X7.  Without [--display] the run starts by choosing the "agg" backend
    and never calls [plt.show()]; with it the backend is left alone and a
    run that completes has called [plt.show()] twice. *)
Theorem display_controls_backend_and_show (kwargs : Namespace) :
  (display kwargs = false ->
     (exists t, fst (run_main kwargs) = UseBackend "agg" :: t)
     /\ shown (fst (run_main kwargs)) = 0%nat)
  /\ (display kwargs = true ->
      (forall name, ~ In (UseBackend name) (fst (run_main kwargs)))
      /\ (shown (fst (run_main kwargs)) <= 2)%nat
      /\ (snd (run_main kwargs) = Returned tt ->
          shown (fst (run_main kwargs)) = 2%nat)).
Proof.
  assert (Hl : shown (fst (load kwargs)) = 0%nat
               /\ forall name, ~ In (UseBackend name) (fst (load kwargs))).
  { destruct (load_trace float_str read_table kwargs) as [-> | ->]; simpl;
      (split; [reflexivity|]); intros name H; [destruct H|].
    destruct H as [H|[]]. discriminate H. }
  destruct Hl as [Hl0 Hlb].
  rewrite main_with_eq. unfold backend. split; intros Hd; rewrite Hd.
  - destruct (snd (load kwargs)) as [data|e]; simpl fst; simpl snd.
    + split; [eexists; reflexivity|].
      change (UseBackend "agg" :: fst (load kwargs) ++ fst (plot_all kwargs data))
        with ([UseBackend "agg"] ++ fst (load kwargs) ++ fst (plot_all kwargs data)).
      rewrite !shown_app, Hl0.
      rewrite (proj1 (proj2 (plot_shown kwargs data)) Hd). reflexivity.
    + split; [eexists; reflexivity|].
      change (UseBackend "agg" :: fst (load kwargs))
        with ([UseBackend "agg"] ++ fst (load kwargs)).
      rewrite shown_app, Hl0. reflexivity.
  - destruct (snd (load kwargs)) as [data|e]; simpl fst; simpl snd.
    + destruct (plot_shown kwargs data) as (Hb & _ & Hs).
      destruct (Hs Hd) as [Hle Heq].
      rewrite shown_app, Hl0. simpl.
      split; [|split; [exact Hle|exact Heq]].
      intros name H. apply in_app_iff in H as [H|H];
        [apply (Hlb name H)|apply (Hb name H)].
    + rewrite Hl0. split; [exact Hlb|]. split; [lia|discriminate].
Qed.

Lemma plot_qq (kwargs : Namespace) (data : DataFrame) (s : Series)
      (t : option string) :
  In (QQ s t) (fst (plot_all kwargs data)) ->
  exists j,
    index_of (pv kwargs) (columns data) = Some j
    /\ s = map (fun r => (fst r, nth j (snd r) NaN)) (rows data)
    /\ t = title kwargs.
Proof.
  unfold plot, getitem.
  destruct (index_of (pv kwargs) (columns data)) as [j|] eqn:Hj.
  - intros H. exists j. split; [reflexivity|]. revert H.
    repeat run_step; simpl; intros H;
      repeat (destruct H as [H|H];
              [try discriminate H; try (injection H as <- <-; auto)|]);
      destruct H.
  - repeat run_step; simpl; intros H;
      repeat (destruct H as [H|H]; [discriminate H|]); destruct H.
Qed.

(** X8.  [qqplot] receives the title and the p-value column of the rows
    [dropna] kept, under their labels; when the p-value column is not the
    chromosome column the values are those of the file. *)
Theorem qq_gets_pvalues_of_kept_rows (kwargs : Namespace) (s : Series)
        (t : option string) :
  In (QQ s t) (fst (run_main kwargs)) ->
  exists h b i j,
    read_table (input kwargs) = Returned (h, b)
    /\ index_of (chrom kwargs) h = Some i
    /\ index_of (pv kwargs) h = Some j
    /\ t = title kwargs
    /\ map fst s = map fst (rows (dropna (frame_of h b)))
    /\ (j <> i ->
        s = map (fun r => (fst r, nth j (snd r) NaN))
                (rows (dropna (frame_of h b)))).
Proof.
  rewrite main_with_eq.
  assert (Hb : ~ In (QQ s t) (backend kwargs))
    by (unfold backend; destruct (display kwargs); simpl; intuition discriminate).
  assert (Hl : ~ In (QQ s t) (fst (load kwargs)))
    by (destruct (load_trace float_str read_table kwargs) as [-> | ->]; simpl;
        intuition discriminate).
  destruct (snd (load kwargs)) as [data|e] eqn:Hd; simpl fst; rewrite ?in_app_iff;
    [|tauto].
  intros [H|[H|H]]; [tauto|tauto|].
  destruct (plot_qq kwargs data s t H) as (j & Hj & -> & ->).
  rewrite load_data_eq in Hd.
  destruct (read_table (input kwargs)) as [[h b]|e]; [|discriminate Hd].
  destruct (index_of (chrom kwargs) h) as [i|] eqn:Hi; [|discriminate Hd].
  destruct (find (has_label 0) (rows (dropna (frame_of h b)))) as [r0|];
    [|discriminate Hd].
  simpl in Hd. injection Hd as <-. simpl in Hj.
  exists h, b, i, j. repeat split; try assumption; try reflexivity.
  - simpl. rewrite !map_map. reflexivity.
  - intros Hne. simpl. rewrite map_map. apply map_ext. intros r.
    unfold relabel. simpl. rewrite nth_update_other by exact Hne. reflexivity.
Qed.


(** ** More about the command line *)

Lemma dest_eqb_eq (a b : dest) : dest_eqb a b = true <-> a = b.
Proof. destruct a, b; simpl; split; intros H; congruence. Qed.

Lemma find_argument_in (tok : string) (a : argument) :
  find_argument tok = Some a -> In a arguments /\ In tok (option_strings a).
Proof.
  intros H. apply find_some in H as [Hin Hex]. split; [exact Hin|].
  apply existsb_exists in Hex as [f [Hf He]]. apply String.eqb_eq in He.
  subst f. exact Hf.
Qed.

(** Each option string names one option, starts with a dash and is not a
    request for help. *)
Lemma option_string_facts (a : argument) (f : string) :
  In a arguments -> In f (option_strings a) ->
  find_argument f = Some a /\ startswith f "-" = true /\ is_help f = false.
Proof.
  intros Ha Hf. simpl in Ha.
  repeat (destruct Ha as [<-|Ha];
          [simpl in Hf;
           repeat (destruct Hf as [<-|Hf]; [repeat split; reflexivity|]);
           destruct Hf|]).
  destruct Ha.
Qed.

(** What an option stores has the type of its attribute. *)
Lemma argument_shape (a : argument) (x : stored) :
  In a arguments ->
  match arg_action a with
  | StoreTrue => x = STrue
  | Store t => exists v, convert py_float py_int t v = Returned x
  end ->
  shape (arg_dest a) x.
Proof.
  intros Ha. simpl in Ha.
  repeat (destruct Ha as [<-|Ha];
          [simpl; unfold convert;
           first [ intros [v Hv];
                   first [ injection Hv as <-; eauto
                         | destruct (py_float v); [injection Hv as <-; eauto|discriminate]
                         | destruct (py_int v); [injection Hv as <-; eauto|discriminate] ]
                 | intros ->; reflexivity ]|]).
  destruct Ha.
Qed.

(** One step of the scan, when it succeeds. *)
Lemma scan_step (tok : string) (rest : list string)
      (s s' : list (dest * stored)) :
  scan py_float py_int (tok :: rest) s = Returned s' ->
  exists a x rest',
    find_argument tok = Some a
    /\ match arg_action a with
       | StoreTrue => x = STrue /\ rest' = rest
       | Store t => exists v, rest = v :: rest'
                              /\ startswith v "-" = false
                              /\ convert py_float py_int t v = Returned x
       end
    /\ scan py_float py_int rest' ((arg_dest a, x) :: s) = Returned s'.
Proof.
  simpl. destruct (is_help tok); [discriminate|].
  destruct (find_argument tok) as [a|]; [|discriminate].
  destruct (arg_action a) as [t|] eqn:Ea.
  - destruct rest as [|v rest']; [discriminate|].
    destruct (startswith v "-") eqn:Ev; [discriminate|].
    destruct (convert py_float py_int t v) as [x|e] eqn:Ec; [|discriminate].
    intros H. exists a, x, rest'. rewrite Ea. eauto 10.
  - intros H. exists a, STrue, rest. rewrite Ea. auto.
Qed.

(** Induction on a scan that succeeds. *)
Lemma scan_ind (P : list string -> list (dest * stored) -> Prop) (s' : list (dest * stored)) :
  (forall s, s = s' -> P [] s) ->
  (forall tok a s rest,
      find_argument tok = Some a -> arg_action a = StoreTrue ->
      scan py_float py_int rest ((arg_dest a, STrue) :: s) = Returned s' ->
      P rest ((arg_dest a, STrue) :: s) -> P (tok :: rest) s) ->
  (forall tok a t v x s rest,
      find_argument tok = Some a -> arg_action a = Store t ->
      startswith v "-" = false -> convert py_float py_int t v = Returned x ->
      scan py_float py_int rest ((arg_dest a, x) :: s) = Returned s' ->
      P rest ((arg_dest a, x) :: s) -> P (tok :: v :: rest) s) ->
  forall argv s, scan py_float py_int argv s = Returned s' -> P argv s.
Proof.
  intros Hnil Hflag Hopt argv.
  assert (H : forall n argv, (length argv <= n)%nat ->
            forall s, scan py_float py_int argv s = Returned s' -> P argv s).
  { induction n as [|n IH]; intros l Hlen s Hs.
    - destruct l; [|simpl in Hlen; lia]. simpl in Hs. apply Hnil. congruence.
    - destruct l as [|tok rest]; [simpl in Hs; apply Hnil; congruence|].
      destruct (scan_step tok rest s s' Hs) as (a & x & rest' & Ha & Hact & Hrest).
      destruct (arg_action a) as [t|] eqn:Ea.
      + destruct Hact as (v & -> & Hv & Hc).
        apply (Hopt tok a t v x s rest' Ha Ea Hv Hc Hrest).
        apply IH; [simpl in Hlen; lia|exact Hrest].
      + destruct Hact as [-> ->].
        apply (Hflag tok a s rest Ha Ea Hrest).
        apply IH; [simpl in Hlen; lia|exact Hrest]. }
  apply (H (length argv)). lia.
Qed.

(** Scanning two command lines in a row is scanning the second from where
    the first ended. *)
Lemma scan_app (a b : list string) (s s' : list (dest * stored)) :
  scan py_float py_int a s = Returned s' ->
  scan py_float py_int (a ++ b) s = scan py_float py_int b s'.
Proof.
  revert a s. apply (scan_ind (fun a s =>
    scan py_float py_int (a ++ b) s = scan py_float py_int b s')).
  - intros s ->. reflexivity.
  - intros tok a s rest Ha Ea Hs IH.
    destruct (find_argument_in tok a Ha) as [Hin Hf].
    destruct (option_string_facts a tok Hin Hf) as (_ & _ & Hh).
    simpl. rewrite Hh, Ha, Ea. exact IH.
  - intros tok a t v x s rest Ha Ea Hv Hc Hs IH.
    destruct (find_argument_in tok a Ha) as [Hin Hf].
    destruct (option_string_facts a tok Hin Hf) as (_ & _ & Hh).
    simpl. rewrite Hh, Ha, Ea, Hv, Hc. exact IH.
Qed.

Lemma lookup_cons_known (d d' : dest) (x : stored) (s : list (dest * stored)) :
  lookup d s <> None -> lookup d ((d', x) :: s) <> None.
Proof.
  intros H. cbn [lookup]. destruct (dest_eqb d d'); [discriminate|exact H].
Qed.

(** The scan only adds to what is stored. *)
Lemma scan_grows (d : dest) (argv : list string) (s s' : list (dest * stored)) :
  scan py_float py_int argv s = Returned s' ->
  lookup d s <> None -> lookup d s' <> None.
Proof.
  revert argv s. apply (scan_ind (fun argv s => lookup d s <> None -> lookup d s' <> None)).
  - intros s ->. auto.
  - intros tok a s rest _ _ _ IH H. apply IH. simpl.
    destruct (dest_eqb d (arg_dest a)); [discriminate|exact H].
  - intros tok a t v x s rest _ _ _ _ _ IH H. apply IH. simpl.
    destruct (dest_eqb d (arg_dest a)); [discriminate|exact H].
Qed.

Lemma dest_eqb_refl (d : dest) : dest_eqb d d = true.
Proof. destruct d; reflexivity. Qed.

(** An option that is on the command line has its attribute stored. *)
Lemma scan_sets (f : string) (a : argument) (argv : list string)
      (s s' : list (dest * stored)) :
  find_argument f = Some a ->
  scan py_float py_int argv s = Returned s' ->
  In f argv -> lookup (arg_dest a) s' <> None.
Proof.
  intros Hf. destruct (find_argument_in f a Hf) as [Hin Hfa].
  destruct (option_string_facts a f Hin Hfa) as (_ & Hdash & _).
  revert argv s.
  apply (scan_ind (fun argv s => In f argv -> lookup (arg_dest a) s' <> None)).
  - intros s _ [].
  - intros tok a' s rest Ha _ Hs IH [->|H]; [|exact (IH H)].
    assert (a' = a) by congruence. subst a'.
    apply (scan_grows _ _ _ _ Hs). simpl. rewrite dest_eqb_refl. discriminate.
  - intros tok a' t v x s rest Ha _ Hv _ Hs IH [->|[->|H]]; [| |exact (IH H)].
    + assert (a' = a) by congruence. subst a'.
      apply (scan_grows _ _ _ _ Hs). simpl. rewrite dest_eqb_refl. discriminate.
    + congruence.
Qed.

(** What is stored has the type of its attribute. *)
Lemma scan_typed (argv : list string) (s s' : list (dest * stored)) :
  scan py_float py_int argv s = Returned s' ->
  (forall d x, lookup d s = Some x -> shape d x) ->
  forall d x, lookup d s' = Some x -> shape d x.
Proof.
  revert argv s.
  apply (scan_ind (fun argv s =>
    (forall d x, lookup d s = Some x -> shape d x) ->
    forall d x, lookup d s' = Some x -> shape d x)).
  - intros s ->. auto.
  - intros tok a s rest Ha Ea _ IH H. apply IH. intros d x. simpl.
    destruct (dest_eqb d (arg_dest a)) eqn:E; [|apply H].
    apply dest_eqb_eq in E. subst d. intros Hx. injection Hx as <-.
    apply argument_shape; [apply (find_argument_in tok a Ha)|].
    rewrite Ea. reflexivity.
  - intros tok a t v x0 s rest Ha Ea _ Hc _ IH H. apply IH. intros d x. simpl.
    destruct (dest_eqb d (arg_dest a)) eqn:E; [|apply H].
    apply dest_eqb_eq in E. subst d. intros Hx. injection Hx as <-.
    apply argument_shape; [apply (find_argument_in tok a Ha)|].
    rewrite Ea. exists v. exact Hc.
Qed.


(** The namespace is read off what the scan stored: the stored value where
    there is one, the default elsewhere. *)
Lemma parse_of_scan (argv : list string) (s : list (dest * stored)) :
  scan py_float py_int argv [] = Returned s ->
  lookup Dinput s <> None -> lookup Doutprefix s <> None ->
  exists ns,
    parse argv = Returned ns
    /\ forall d, attr d ns = match lookup d s with
                             | Some x => Some x
                             | None => default_of d
                             end.
Proof.
  intros Hs Hi Ho.
  assert (Ht : forall d x, lookup d s = Some x -> shape d x).
  { apply (scan_typed argv [] s Hs). intros d x H. discriminate H. }
  unfold parse_commandline_args. rewrite Hs.
  destruct (lookup Dinput s) as [xi|] eqn:Ei; [|congruence].
  destruct (lookup Doutprefix s) as [xo|] eqn:Eo; [|congruence].
  destruct (Ht _ _ Ei) as [i ->]. destruct (Ht _ _ Eo) as [o ->].
  eexists. split; [reflexivity|].
  intros d. destruct d; simpl; unfold str_attr, opt_attr;
    try (rewrite Ei; reflexivity); try (rewrite Eo; reflexivity);
    match goal with
    | |- context [lookup ?d s] =>
        destruct (lookup d s) as [x|] eqn:E; [|reflexivity];
        pose proof (Ht _ _ E) as Hx; simpl in Hx;
        first [subst x | destruct Hx as [? ->]]; reflexivity
    end.
Qed.

Lemma parse_inv (argv : list string) (ns : Namespace) :
  parse argv = Returned ns ->
  exists s,
    scan py_float py_int argv [] = Returned s
    /\ lookup Dinput s <> None /\ lookup Doutprefix s <> None
    /\ forall d, attr d ns = match lookup d s with
                             | Some x => Some x
                             | None => default_of d
                             end.
Proof.
  intros H. pose proof H as H0. unfold parse_commandline_args in H0.
  destruct (scan py_float py_int argv []) as [s|e] eqn:Hs; [|discriminate].
  assert (Hi : lookup Dinput s <> None)
    by (destruct (lookup Dinput s); [discriminate|discriminate H0]).
  assert (Ho : lookup Doutprefix s <> None).
  { destruct (lookup Dinput s) as [[| | |]|]; try discriminate H0;
      destruct (lookup Doutprefix s); discriminate. }
  destruct (parse_of_scan argv s Hs Hi Ho) as (ns' & Hp & Ha).
  exists s. repeat split; try assumption.
  assert (ns' = ns) by congruence. subst ns'. exact Ha.
Qed.

(** An attribute is left unset by the scan exactly when its option is not
    on the command line. *)
Lemma lookup_none_iff (a : argument) (argv : list string)
      (s : list (dest * stored)) :
  In a arguments ->
  (forall a', In a' arguments -> arg_dest a' = arg_dest a ->
              option_strings a' = option_strings a) ->
  scan py_float py_int argv [] = Returned s ->
  (lookup (arg_dest a) s = None <-> omitted (option_strings a) argv).
Proof.
  intros Ha Hu Hs. split.
  - intros Hn f Hf Hin.
    destruct (option_string_facts a f Ha Hf) as (Hfind & _ & _).
    apply (scan_sets f a argv [] s Hfind Hs Hin Hn).
  - intros Hom.
    apply (omitted_lookup py_float py_int (arg_dest a) (option_strings a) argv s Hu Hs Hom).
Qed.


(** X9.  An option added at the end of a command line that parses gives
    its attribute the converted value, whatever came before, and leaves
    every other attribute as it was. *)
Theorem appended_option_wins (argv : list string) (ns : Namespace)
        (a : argument) (t : argtype) (f v : string) (x : stored) :
  parse argv = Returned ns ->
  In a arguments -> In f (option_strings a) -> arg_action a = Store t ->
  startswith v "-" = false ->
  convert py_float py_int t v = Returned x ->
  exists ns',
    parse (argv ++ [f; v]) = Returned ns'
    /\ attr (arg_dest a) ns' = Some x
    /\ forall d, d <> arg_dest a -> attr d ns' = attr d ns.
Proof.
  intros Hp Ha Hf Ht Hv Hc.
  destruct (parse_inv argv ns Hp) as (s & Hs & Hi & Ho & Hattr).
  destruct (option_string_facts a f Ha Hf) as (Hfind & _ & Hh).
  assert (Hs' : scan py_float py_int (argv ++ [f; v]) []
                = Returned ((arg_dest a, x) :: s)).
  { rewrite (scan_app _ _ _ _ Hs). cbn [scan]. rewrite Hh, Hfind, Ht, Hv, Hc.
    reflexivity. }
  assert (Hi' : lookup Dinput ((arg_dest a, x) :: s) <> None)
    by (apply lookup_cons_known; exact Hi).
  assert (Ho' : lookup Doutprefix ((arg_dest a, x) :: s) <> None)
    by (apply lookup_cons_known; exact Ho).
  destruct (parse_of_scan _ _ Hs' Hi' Ho') as (ns' & Hp' & Hattr').
  exists ns'. split; [exact Hp'|]. split.
  - rewrite Hattr'. simpl. rewrite dest_eqb_refl. reflexivity.
  - intros d Hd. rewrite Hattr', Hattr. simpl.
    destruct (dest_eqb d (arg_dest a)) eqn:E; [|reflexivity].
    apply dest_eqb_eq in E. contradiction.
Qed.

Lemma switches_and_optionals (argv : list string) (ns : Namespace) :
  parse argv = Returned ns ->
  (display ns = true <-> In "--display" argv)
  /\ (m_id ns = None <-> omitted ["-M"; "--top-sign-signal-mark-id"] argv)
  /\ (title ns = None <-> omitted ["-T"; "--title"] argv)
  /\ (dpi ns = PyInt 300 <-> omitted ["--dpi"] argv)
  /\ ((exists f, dpi ns = PyFloat f) <-> In "--dpi" argv).
Proof.
  intros Hp. destruct (parse_inv argv ns Hp) as (s & Hs & _ & _ & Hattr).
  assert (Ht : forall d x, lookup d s = Some x -> shape d x).
  { apply (scan_typed argv [] s Hs). intros d x H. discriminate H. }
  assert (Hiff : forall a, In a arguments ->
            (forall a', In a' arguments -> arg_dest a' = arg_dest a ->
                        option_strings a' = option_strings a) ->
            (lookup (arg_dest a) s = None <-> omitted (option_strings a) argv))
    by (intros a Ha Hu; apply (lookup_none_iff a argv s Ha Hu Hs)).
  assert (Huniq : forall a, In a arguments ->
            forall a', In a' arguments -> arg_dest a' = arg_dest a ->
                       option_strings a' = option_strings a).
  { intros a Ha a' Ha' Hd. simpl in Ha, Ha'.
    repeat (destruct Ha as [<-|Ha];
            [repeat (destruct Ha' as [<-|Ha'];
                     [first [reflexivity|simpl in Hd; discriminate Hd]|]); destruct Ha'|]).
    destruct Ha. }
  assert (Hone : forall f, omitted [f] argv <-> ~ In f argv).
  { intros f. split.
    - intros H. apply (H f). left. reflexivity.
    - intros H g [<-|[]]. exact H. }
  pose (get := fun n => nth n arguments
                 {| option_strings := []; arg_dest := Dinput; arg_action := StoreTrue |}).
  assert (Hin : forall n, (n < 12)%nat -> In (get n) arguments)
    by (intros n Hn; apply nth_In; exact Hn).
  split; [|split; [|split; [|split]]].
  - pose proof (Hiff (get 11%nat) (Hin 11%nat ltac:(lia)) (Huniq _ (Hin 11%nat ltac:(lia)))) as H.
    simpl in H. rewrite Hone in H.
    pose proof (Hattr Ddisplay) as Hd. simpl in Hd.
    destruct (lookup Ddisplay s) as [x|] eqn:E.
    + pose proof (Ht _ _ E) as Hx. simpl in Hx. subst x.
      destruct (display ns); [|discriminate Hd].
      split; [intros _|reflexivity].
      destruct (in_dec string_dec "--display" argv) as [Hy|Hy]; [exact Hy|].
      apply H in Hy. discriminate Hy.
    + destruct (display ns); [discriminate Hd|].
      split; [discriminate|]. intros Hy. exfalso. apply (proj1 H eq_refl Hy).
  - pose proof (Hiff (get 8%nat) (Hin 8%nat ltac:(lia)) (Huniq _ (Hin 8%nat ltac:(lia)))) as H.
    simpl in H. rewrite <- H.
    pose proof (Hattr Dm_id) as Hd. simpl in Hd.
    destruct (lookup Dm_id s) as [x|]; destruct (m_id ns); simpl in Hd;
      split; intros; congruence.
  - pose proof (Hiff (get 6%nat) (Hin 6%nat ltac:(lia)) (Huniq _ (Hin 6%nat ltac:(lia)))) as H.
    simpl in H. rewrite <- H.
    pose proof (Hattr Dtitle) as Hd. simpl in Hd.
    destruct (lookup Dtitle s) as [x|]; destruct (title ns); simpl in Hd;
      split; intros; congruence.
  - pose proof (Hiff (get 10%nat) (Hin 10%nat ltac:(lia)) (Huniq _ (Hin 10%nat ltac:(lia)))) as H.
    simpl in H. rewrite <- H.
    pose proof (Hattr Ddpi) as Hd. simpl in Hd.
    destruct (lookup Ddpi s) as [x|] eqn:E.
    + pose proof (Ht _ _ E) as [f ->].
      destruct (dpi ns); [discriminate Hd|]. split; intros; discriminate.
    + destruct (dpi ns) as [z|f]; [|discriminate Hd].
      injection Hd as ->. split; reflexivity.
  - pose proof (Hiff (get 10%nat) (Hin 10%nat ltac:(lia)) (Huniq _ (Hin 10%nat ltac:(lia)))) as H.
    simpl in H. rewrite Hone in H.
    pose proof (Hattr Ddpi) as Hd. simpl in Hd.
    destruct (lookup Ddpi s) as [x|] eqn:E.
    + pose proof (Ht _ _ E) as [f ->].
      destruct (dpi ns) as [z|g]; [discriminate Hd|].
      split; [intros _|eauto].
      destruct (in_dec string_dec "--dpi" argv) as [Hy|Hy]; [exact Hy|].
      apply H in Hy. discriminate Hy.
    + destruct (dpi ns) as [z|g]; [|discriminate Hd].
      split; [intros [f Hf]; discriminate Hf|].
      intros Hy. exfalso. apply (proj1 H eq_refl Hy).
Qed.




(** X14.  A value that [float()] or [int()] does not accept, given to an
    option of that type at the end of a command line that parses, ends the
    program with status 2. *)
Theorem bad_number_exits_2 (argv : list string) (ns : Namespace)
        (a : argument) (t : argtype) (f v : string) :
  parse argv = Returned ns ->
  In a arguments -> In f (option_strings a) -> arg_action a = Store t ->
  startswith v "-" = false ->
  match t with
  | TStr => False
  | TFloat => py_float v = None
  | TInt => py_int v = None
  end ->
  parse (argv ++ [f; v]) = Raised (SystemExit 2).
Proof.
  intros Hp Ha Hf Ht Hv Hbad.
  destruct (parse_inv argv ns Hp) as (s & Hs & _).
  destruct (option_string_facts a f Ha Hf) as (Hfind & _ & Hh).
  unfold parse_commandline_args. rewrite (scan_app _ _ _ _ Hs).
  cbn [scan]. rewrite Hh, Hfind, Ht, Hv.
  destruct t; simpl; [destruct Hbad|rewrite Hbad; reflexivity|rewrite Hbad; reflexivity].
Qed.

(** ** [main] from the command line *)

Lemma main_eq (argv : list string) :
  run_argv argv =
  match parse argv with
  | Returned ns => run_main ns
  | Raised e => ([], Raised e)
  end.
Proof.
  unfold main, lift. destruct (parse argv) as [ns|e]; [|reflexivity].
  rewrite bind_returned. simpl. destruct (run_main ns). reflexivity.
Qed.

Lemma completed_run_files (kwargs : Namespace) :
  snd (run_main kwargs) = Returned tt ->
  saved_files (fst (run_main kwargs)) = [manhattan_file kwargs; qq_file kwargs].
Proof.
  rewrite main_with_eq.
  destruct (snd (load kwargs)) as [data|e]; simpl; [|discriminate].
  intros H. rewrite !saved_files_app, backend_saved, load_saved. simpl.
  apply (proj1 (plot_saved manhattanplot qqplot savefig kwargs data) H).
Qed.



(** X5.  Whatever the outcome of a run, the files written are none, the
    Manhattan file alone, or the Manhattan file and then the Q-Q file: the
    Q-Q file is never written without the Manhattan file before it. *)
Theorem files_written_in_order (kwargs : Namespace) :
  saved_files (fst (run_main kwargs)) = []
  \/ saved_files (fst (run_main kwargs))
     = [(outprefix kwargs ++ ".manhattan." ++ outfiletype kwargs)%string]
  \/ saved_files (fst (run_main kwargs))
     = [(outprefix kwargs ++ ".manhattan." ++ outfiletype kwargs)%string;
        (outprefix kwargs ++ ".QQ." ++ outfiletype kwargs)%string].
Proof.
  apply (files_written_so_far float_str read_table manhattanplot qqplot savefig).
Qed.

End DriverCases.

Lemma startswith_chr (s : string) : startswith ("chr" ++ s) "chr" = true.
Proof. unfold startswith. simpl. destruct s; reflexivity. Qed.

Lemma slice_from_length (n : nat) (s : string) :
  String.length (slice_from n s) = (String.length s - n)%nat.
Proof.
  revert s. induction n as [|n IH]; intros s; simpl.
  - destruct s; simpl; lia.
  - destruct s as [|c s]; simpl; [reflexivity|apply IH].
Qed.

Lemma startswith_chr_length (s : string) :
  startswith s "chr" = true -> (3 <= String.length s)%nat.
Proof.
  unfold startswith. destruct s as [|a [|b [|c s]]]; simpl;
    repeat match goal with
           | |- context [if ?c then _ else _] => destruct c
           end;
    intros H; try discriminate H; lia.
Qed.

(** X15.  The lambda of line 72 cuts exactly one leading "chr": it sends
    "chr" followed by s to s, so a label with the prefix and the same label
    without it come out equal, and it changes a label exactly when the
    label starts with "chr". *)
Theorem strip_chr_cuts_one_prefix :
  (forall s, strip_chr (Str ("chr" ++ s)) = ret (Str s))
  /\ (forall s, startswith s "chr" = false ->
                strip_chr (Str ("chr" ++ s)) = strip_chr (Str s))
  /\ (forall s, strip_chr (Str s) = ret (Str s) <-> startswith s "chr" = false).
Proof.
  assert (H1 : forall s, strip_chr (Str ("chr" ++ s)) = ret (Str s)).
  { intros s. rewrite strip_chr_text. unfold strip_label.
    rewrite startswith_chr. reflexivity. }
  assert (H2 : forall s, startswith s "chr" = false -> strip_chr (Str s) = ret (Str s)).
  { intros s Hs. rewrite strip_chr_text. unfold strip_label. rewrite Hs. reflexivity. }
  split; [exact H1|]. split.
  - intros s Hs. rewrite H1, (H2 s Hs). reflexivity.
  - intros s. split; [|apply H2].
    rewrite strip_chr_text. unfold strip_label.
    destruct (startswith s "chr") eqn:E; [|reflexivity].
    intros H. exfalso.
    assert (Hs : slice_from 3 s = s) by (injection H as H'; exact H').
    pose proof (slice_from_length 3 s) as Hl. rewrite Hs in Hl.
    pose proof (startswith_chr_length s E). lia.
Qed.

(** * The further properties on sample inputs *)

Lemma first_row_null_raises_key_error_witness :
  In (chrom Sample.kwargs) Sample.header
  /\ existsb isna (fit (length Sample.header) [Int 1; Int 100; Flt 0.5%float; NaN]) = true
  /\ Cases.main_with_kwargs Sample.kwargs Cases.null_first
     = ([UseBackend "agg"], Raised (KeyError (Int 0))).
Proof.
  assert (Hc : In (chrom Sample.kwargs) Sample.header) by (left; reflexivity).
  split; [exact Hc|]. split; [reflexivity|].
  exact (first_row_null_raises_key_error Sample.float_str
           (Sample.table Sample.header Cases.null_first)
           Sample.plots Sample.plots Sample.plots Sample.kwargs
           Sample.header _ _ eq_refl Hc eq_refl).
Defined.

Lemma not_in_header (c : string) :
  forallb (fun x => negb (String.eqb c x)) Sample.header = true ->
  ~ In c Sample.header.
Proof.
  intros H Hin. rewrite forallb_forall in H. specialize (H c Hin).
  rewrite String.eqb_refl in H. discriminate H.
Defined.



Lemma qq_gets_pvalues_of_kept_rows_witness :
  In (QQ Cases.pvalues None) (fst (Sample.main_with_table Sample.chr_first))
  /\ exists j,
       index_of (pv Sample.kwargs) Sample.header = Some j
       /\ map fst Cases.pvalues
          = map fst (rows (dropna (frame_of Sample.header Sample.chr_first))).
Proof.
  assert (H : In (QQ Cases.pvalues None)
                 (fst (Sample.main_with_table Sample.chr_first)))
    by (vm_compute; do 7 right; left; reflexivity).
  split; [exact H|].
  destruct (qq_gets_pvalues_of_kept_rows Sample.float_str
              (Sample.table Sample.header Sample.chr_first)
              Sample.plots Sample.plots Sample.plots Sample.kwargs
              Cases.pvalues None H)
    as (h & b & i & j & Hr & _ & Hj & _ & Hl & _).
  injection Hr as <- <-. exists j. split; [exact Hj|exact Hl].
Defined.

Lemma appended_option_wins_witness :
  parse_commandline_args Sample.no_float Sample.no_int Sample.argv
  = Returned Sample.kwargs
  /\ exists ns',
       parse_commandline_args Sample.no_float Sample.no_int
         (Sample.argv ++ ["--chrom"; "CHR"]) = Returned ns'
       /\ attr Dchrom ns' = Some (SStr "CHR")
       /\ forall d, d <> Dchrom -> attr d ns' = attr d Sample.kwargs.
Proof.
  split; [reflexivity|].
  exact (appended_option_wins Sample.no_float Sample.no_int Sample.argv
           Sample.kwargs Cases.chrom_option TStr "--chrom" "CHR" (SStr "CHR")
           eq_refl
           (or_intror (or_intror (or_intror (or_introl eq_refl))))
           (or_introl eq_refl) eq_refl eq_refl eq_refl).
Defined.





Lemma bad_number_exits_2_witness :
  parse_commandline_args Sample.no_float Sample.no_int Sample.argv
  = Returned Sample.kwargs
  /\ Sample.no_float "high" = None
  /\ parse_commandline_args Sample.no_float Sample.no_int
       (Sample.argv ++ ["--dpi"; "high"]) = Raised (SystemExit 2).
Proof.
  split; [reflexivity|]. split; [reflexivity|].
  exact (bad_number_exits_2 Sample.no_float Sample.no_int Sample.argv
           Sample.kwargs Cases.dpi_option TFloat "--dpi" "high" eq_refl
           (or_intror (or_intror (or_intror (or_intror (or_intror (or_intror
              (or_intror (or_intror (or_intror (or_intror (or_introl eq_refl)))))))))))
           (or_introl eq_refl) eq_refl eq_refl eq_refl).
Defined.
